(** * go-tablewriter: a shallow embedding of the rendering engine

    The development follows the Go package [tablewriter]:
    - [options.go]      the chainable option setters,
    - [tablewriter.go]  the types, the error values and the row store,
    - the rendering file: [render] and its helpers, one serializer per
      format.

    A Go [string] is a sequence of bytes and is modelled by [string] (a
    sequence of [ascii] bytes); Go's [int] is modelled by [Z] (all the
    integers that occur are lengths or small constants, so no wrap-around
    is reachable); slices are lists, a slice written by index is a list
    updated with [<[i:=x]>]; [bytes.Buffer] is the string written so far;
    [map[string]string] is a [gmap string string]. *)

From Stdlib Require Import ZArith Ascii String List Lia Bool Sorted Permutation.
From stdpp Require Import gmap strings list sorting.

Local Open Scope Z_scope.

(* ===================================================================== *)
(** * Bytes and strings of the Go runtime *)
(* ===================================================================== *)

(** The line feed (Go writes it as backslash-n). *)
Definition LF : string := String "010"%char EmptyString.

(** The double quote character, as a one-byte string. *)
Definition DQ : string := String "034"%char EmptyString.

(** [s[i]] as a number, and [byte(x)] (the conversion keeps the low 8 bits). *)
Definition byteZ (c : ascii) : Z := Z.of_N (N_of_ascii c).
Definition byteOf (x : Z) : ascii := ascii_of_N (Z.to_N (Z.land x 255)).

(** [len(s)] of a string, in bytes. *)
Definition strlen (s : string) : nat := String.length s.

(** [s[n:]] on the bytes of a string. *)
Fixpoint dropBytes (n : nat) (s : string) : string :=
  match n, s with
  | O, _ => s
  | S _, EmptyString => EmptyString
  | S k, String _ s' => dropBytes k s'
  end.

Module strings.

(** [strings.Repeat(s, count)]; Go panics on a negative count, which no
    call site of the package can pass (see [colWidths_nonneg] and the
    guard [pad <= 0] of [alignCell]). *)
Fixpoint repeatN (s : string) (n : nat) : string :=
  match n with
  | O => EmptyString
  | S k => s +:+ repeatN s k
  end.
Definition Repeat (s : string) (count : Z) : string := repeatN s (Z.to_nat count).

(** [strings.Join(elems, sep)]. *)
Fixpoint Join (elems : list string) (sep : string) : string :=
  match elems with
  | [] => EmptyString
  | [e] => e
  | e :: rest => e +:+ sep +:+ Join rest sep
  end.

(** Whether byte [c] occurs in [chars]. *)
Fixpoint hasByte (c : ascii) (chars : string) : bool :=
  match chars with
  | EmptyString => false
  | String d chars' => Ascii.eqb c d || hasByte c chars'
  end.

(** [strings.ContainsAny(s, chars)] for [chars] made of ASCII bytes only
    (the one call of the package passes a quote, a comma and a line feed): Go then scans [s]
    byte by byte against the ASCII set. *)
Fixpoint ContainsAny (s chars : string) : bool :=
  match s with
  | EmptyString => false
  | String c s' => hasByte c chars || ContainsAny s' chars
  end.

(** [strings.ReplaceAll(s, old, new)] for a one-byte [old]. *)
Fixpoint ReplaceAllByte (s : string) (old : ascii) (new : string) : string :=
  match s with
  | EmptyString => EmptyString
  | String c s' =>
      if Ascii.eqb c old then new +:+ ReplaceAllByte s' old new
      else String c (ReplaceAllByte s' old new)
  end.

End strings.

(* ===================================================================== *)
(** * UTF-8, as the Go runtime decodes and encodes it *)
(* ===================================================================== *)

Module utf8.

Definition runeError : Z := 0xFFFD.
Definition runeSelf : Z := 0x80.
Definition maxRune : Z := 0x10FFFF.
Definition surrogateMin : Z := 0xD800.
Definition surrogateMax : Z := 0xDFFF.

Definition tx : Z := 0x80.
Definition t2 : Z := 0xC0.
Definition t3 : Z := 0xE0.
Definition t4 : Z := 0xF0.
Definition t5 : Z := 0xF8.

Definition maskx : Z := 0x3F.
Definition mask2 : Z := 0x1F.
Definition mask3 : Z := 0x0F.
Definition mask4 : Z := 0x07.

Definition rune1Max : Z := 0x7F.
Definition rune2Max : Z := 0x7FF.
Definition rune3Max : Z := 0xFFFF.

Definition locb : Z := 0x80.
Definition hicb : Z := 0xBF.

(** [locb <= c && c <= hicb]: [c] is a continuation byte. *)
Definition isCont (c : Z) : bool := (locb <=? c) && (c <=? hicb).

(** The rune at the head of a non-empty string and its width in bytes
    (the runtime's [decoderune], with the ASCII fast path of its
    callers).  Every malformed head (a stray continuation byte, a
    truncated, overlong or surrogate sequence, a value above
    [maxRune]) decodes to [runeError] with width one. *)
Definition decoderune (s : string) : Z * nat :=
  match s with
  | EmptyString => (runeError, 1%nat)
  | String a0 s1 =>
    let b0 := byteZ a0 in
    if b0 <? runeSelf then (b0, 1%nat)
    else if (t2 <=? b0) && (b0 <? t3) then
      match s1 with
      | String a1 _ =>
        let b1 := byteZ a1 in
        if isCont b1 then
          let r := Z.lor (Z.shiftl (Z.land b0 mask2) 6) (Z.land b1 maskx) in
          if rune1Max <? r then (r, 2%nat) else (runeError, 1%nat)
        else (runeError, 1%nat)
      | _ => (runeError, 1%nat)
      end
    else if (t3 <=? b0) && (b0 <? t4) then
      match s1 with
      | String a1 (String a2 _) =>
        let b1 := byteZ a1 in
        let b2 := byteZ a2 in
        if isCont b1 && isCont b2 then
          let r := Z.lor (Z.lor (Z.shiftl (Z.land b0 mask3) 12)
                                (Z.shiftl (Z.land b1 maskx) 6))
                         (Z.land b2 maskx) in
          if (rune2Max <? r) && negb ((surrogateMin <=? r) && (r <=? surrogateMax))
          then (r, 3%nat) else (runeError, 1%nat)
        else (runeError, 1%nat)
      | _ => (runeError, 1%nat)
      end
    else if (t4 <=? b0) && (b0 <? t5) then
      match s1 with
      | String a1 (String a2 (String a3 _)) =>
        let b1 := byteZ a1 in
        let b2 := byteZ a2 in
        let b3 := byteZ a3 in
        if isCont b1 && isCont b2 && isCont b3 then
          let r := Z.lor (Z.lor (Z.lor (Z.shiftl (Z.land b0 mask4) 18)
                                       (Z.shiftl (Z.land b1 maskx) 12))
                                (Z.shiftl (Z.land b2 maskx) 6))
                         (Z.land b3 maskx) in
          if (rune3Max <? r) && (r <=? maxRune)
          then (r, 4%nat) else (runeError, 1%nat)
        else (runeError, 1%nat)
      | _ => (runeError, 1%nat)
      end
    else (runeError, 1%nat)
  end.

(** The runes of [s] from its first byte on, after skipping [skip]
    bytes that belong to the rune decoded last. *)
Fixpoint runesFrom (skip : nat) (s : string) : list Z :=
  match s with
  | EmptyString => []
  | String _ s' =>
      match skip with
      | S k => runesFrom k s'
      | O => let '(r, size) := decoderune s in r :: runesFrom (size - 1) s'
      end
  end.

(** [[]rune(s)]. *)
Definition runes (s : string) : list Z := runesFrom 0 s.

(** [utf8.RuneCountInString(s)]: a malformed byte counts as one rune. *)
Definition RuneCountInString (s : string) : Z := Z.of_nat (length (runes s)).

(** [string(r)] for one rune (the runtime's [encoderune]); surrogates
    and values outside [0, maxRune] are encoded as [runeError]. *)
Definition encoderune (r : Z) : string :=
  let i := r mod 2 ^ 32 in
  if i <=? rune1Max then String (byteOf r) EmptyString
  else if i <=? rune2Max then
    String (byteOf (Z.lor t2 (Z.land (Z.shiftr r 6) 255)))
   (String (byteOf (Z.lor tx (Z.land (Z.land r 255) maskx))) EmptyString)
  else
    let r3 := if (maxRune <? i) || ((surrogateMin <=? i) && (i <=? surrogateMax))
              then Some runeError
              else if i <=? rune3Max then Some r else None in
    match r3 with
    | Some r =>
      String (byteOf (Z.lor t3 (Z.land (Z.shiftr r 12) 255)))
     (String (byteOf (Z.lor tx (Z.land (Z.land (Z.shiftr r 6) 255) maskx)))
     (String (byteOf (Z.lor tx (Z.land (Z.land r 255) maskx))) EmptyString))
    | None =>
      String (byteOf (Z.lor t4 (Z.land (Z.shiftr r 18) 255)))
     (String (byteOf (Z.lor tx (Z.land (Z.land (Z.shiftr r 12) 255) maskx)))
     (String (byteOf (Z.lor tx (Z.land (Z.land (Z.shiftr r 6) 255) maskx)))
     (String (byteOf (Z.lor tx (Z.land (Z.land r 255) maskx))) EmptyString)))
    end.

(** [string(rs)] for a slice of runes. *)
Fixpoint stringOfRunes (rs : list Z) : string :=
  match rs with
  | [] => EmptyString
  | r :: rs' => encoderune r +:+ stringOfRunes rs'
  end.

End utf8.

(* ===================================================================== *)
(** * Loops and buffers *)
(* ===================================================================== *)

(** [for i, x := range xs { body }], threading the state the body updates. *)
Fixpoint forRangeFrom {A St : Type} (i : nat) (xs : list A)
    (body : nat → A → St → St) (st : St) : St :=
  match xs with
  | [] => st
  | x :: xs' => forRangeFrom (S i) xs' body (body i x st)
  end.
Definition forRange {A St : Type} (xs : list A) (body : nat → A → St → St) (st : St) : St :=
  forRangeFrom 0 xs body st.

(** [for i := lo; i < hi; i++ { body }]. *)
Definition forLoop {St : Type} (lo hi : nat) (body : nat → St → St) (st : St) : St :=
  fold_left (fun st i => body i st) (seq lo (hi - lo)) st.

(** [b.WriteString(s)] on a [bytes.Buffer] or a [strings.Builder]. *)
Definition WriteString (b s : string) : string := b +:+ s.

(** [xs[i]] for an index the loops keep in range; [d] stands for the zero
    value and is never returned inside the package (see
    [colWidths_length]). *)
Definition at_ {A : Type} (xs : list A) (i : nat) (d : A) : A := nth i xs d.

(** [len(xs)] as a Go [int]. *)
Definition len {A : Type} (xs : list A) : Z := Z.of_nat (length xs).

(* ===================================================================== *)
(** * tablewriter.go: types, errors, the row store *)
(* ===================================================================== *)

(** [type Format int] with its [iota] constants. *)
Definition Format : Type := Z.
Definition FormatPlain : Format := 0.
Definition FormatMarkdown : Format := 1.
Definition FormatCSV : Format := 2.
Definition FormatJSON : Format := 3.
Definition FormatSimple : Format := 4.

(** [type Alignment int]. *)
Definition Alignment : Type := Z.
Definition AlignLeft : Alignment := 0.
Definition AlignCenter : Alignment := 1.
Definition AlignRight : Alignment := 2.

(** The error values of the package; [ErrMarshal] stands for the wrapped
    error of [fmt.Errorf] in [renderJSON]. *)
Inductive error : Type :=
  | ErrMissingHeaders
  | ErrColumnMismatch
  | ErrMarshal.

(** The field [Format] of the Go struct is [Format_] here, the type
    having taken the name. *)
Record Options : Type := mkOptions {
  Headers : list string;
  Format_ : Format;
  Alignments : list Alignment;
  MaxColumnWidth : Z;
  NullPlaceholder : string;
  StrictColumnCount : bool
}.

Record Table : Type := mkTable {
  opts : Options;
  rows : list (list string)
}.

Definition New (o : Options) : Table := {| opts := o; rows := [] |}.

(** [AddRow]: the table after the call and the error returned ([None] is
    Go's [nil]). *)
Definition AddRow (t : Table) (cols : list string) : Table * option error :=
  if StrictColumnCount (opts t) && (0 <? len (Headers (opts t))) then
    if negb (len cols =? len (Headers (opts t))) then (t, Some ErrColumnMismatch)
    else ({| opts := opts t; rows := rows t ++ [cols] |}, None)
  else ({| opts := opts t; rows := rows t ++ [cols] |}, None).

Fixpoint AddRows (t : Table) (rs : list (list string)) : Table * option error :=
  match rs with
  | [] => (t, None)
  | r :: rs' =>
      match AddRow t r with
      | (t', Some err) => (t', Some err)
      | (t', None) => AddRows t' rs'
      end
  end.

Definition Reset (t : Table) : Table := {| opts := opts t; rows := [] |}.

Definition RowCount (t : Table) : Z := len (rows t).

(* ===================================================================== *)
(** * options.go *)
(* ===================================================================== *)

Definition DefaultOptions : Options :=
  {| Headers := []; Format_ := FormatPlain; Alignments := [];
     MaxColumnWidth := 0; NullPlaceholder := EmptyString;
     StrictColumnCount := false |}.

Definition WithHeaders (o : Options) (headers : list string) : Options :=
  {| Headers := headers; Format_ := Format_ o; Alignments := Alignments o;
     MaxColumnWidth := MaxColumnWidth o; NullPlaceholder := NullPlaceholder o;
     StrictColumnCount := StrictColumnCount o |}.

Definition WithFormat (o : Options) (f : Format) : Options :=
  {| Headers := Headers o; Format_ := f; Alignments := Alignments o;
     MaxColumnWidth := MaxColumnWidth o; NullPlaceholder := NullPlaceholder o;
     StrictColumnCount := StrictColumnCount o |}.

Definition WithAlignments (o : Options) (a : list Alignment) : Options :=
  {| Headers := Headers o; Format_ := Format_ o; Alignments := a;
     MaxColumnWidth := MaxColumnWidth o; NullPlaceholder := NullPlaceholder o;
     StrictColumnCount := StrictColumnCount o |}.

Definition WithMaxColumnWidth (o : Options) (w : Z) : Options :=
  {| Headers := Headers o; Format_ := Format_ o; Alignments := Alignments o;
     MaxColumnWidth := w; NullPlaceholder := NullPlaceholder o;
     StrictColumnCount := StrictColumnCount o |}.

Definition WithNullPlaceholder (o : Options) (s : string) : Options :=
  {| Headers := Headers o; Format_ := Format_ o; Alignments := Alignments o;
     MaxColumnWidth := MaxColumnWidth o; NullPlaceholder := s;
     StrictColumnCount := StrictColumnCount o |}.

Definition WithStrictColumnCount (o : Options) : Options :=
  {| Headers := Headers o; Format_ := Format_ o; Alignments := Alignments o;
     MaxColumnWidth := MaxColumnWidth o; NullPlaceholder := NullPlaceholder o;
     StrictColumnCount := true |}.

(* ===================================================================== *)
(** * encoding/json, as far as [renderJSON] uses it *)
(* ===================================================================== *)

Module json.

(** The digit of [hex = 0123456789abcdef] at index [n]. *)
Definition hex (n : Z) : ascii :=
  if n <? 10 then byteOf (48 + n) else byteOf (87 + n).

(** Bytes below [utf8.RuneSelf] that the encoder copies unchanged when
    it escapes HTML (the table [htmlSafeSet]): everything from the space
    on, except the quote, the backslash and the characters [<], [>], [&]. *)
Definition htmlSafe (b : Z) : bool :=
  (32 <=? b) && negb ((b =? 34) || (b =? 92) || (b =? 60) || (b =? 62) || (b =? 38)).

Definition backslash : string := String "092"%char EmptyString.

(** The escape written for an ASCII byte outside [htmlSafeSet]. *)
Definition escapeByte (a : ascii) : string :=
  let b := byteZ a in
  if (b =? 92) || (b =? 34) then backslash +:+ String a EmptyString
  else if b =? 8 then backslash +:+ "b"
  else if b =? 12 then backslash +:+ "f"
  else if b =? 10 then backslash +:+ "n"
  else if b =? 13 then backslash +:+ "r"
  else if b =? 9 then backslash +:+ "t"
  else backslash +:+ "u00" +:+
       String (hex (Z.shiftr b 4)) (String (hex (Z.land b 15)) EmptyString).

(** The body of [appendString]: [skip] bytes of the rune decoded last
    are still to pass, copied when [copy] is set and dropped when the
    rune was replaced by an escape. *)
Fixpoint escapeFrom (skip : nat) (copy : bool) (s : string) : string :=
  match s with
  | EmptyString => EmptyString
  | String a s' =>
      match skip with
      | S k => if copy then String a (escapeFrom k copy s') else escapeFrom k copy s'
      | O =>
          let b := byteZ a in
          if b <? utf8.runeSelf then
            if htmlSafe b then String a (escapeFrom 0 true s')
            else escapeByte a +:+ escapeFrom 0 true s'
          else
            let '(c, size) := utf8.decoderune s in
            if (c =? utf8.runeError) && (size =? 1)%nat then
              backslash +:+ "ufffd" +:+ escapeFrom 0 true s'
            else if (c =? 0x2028) || (c =? 0x2029) then
              backslash +:+ "u202" +:+ String (hex (Z.land c 15)) (escapeFrom (size - 1) false s')
            else String a (escapeFrom (size - 1) true s')
      end
  end.

(** [appendString(dst, src, escapeHTML = true)]: the JSON string literal. *)
Definition appendString (src : string) : string := DQ +:+ escapeFrom 0 true src +:+ DQ.

(** The order in which the encoder sorts the keys of a map: byte-wise
    comparison of the key strings. *)
Definition keyLe (x y : string * string) : Prop := String.le x.1 y.1.

#[global] Instance keyLe_dec (x y : string * string) : Decision (keyLe x y) :=
  decide_rel String.le x.1 y.1.

(** The fields of a [map[string]string] in the order they are written. *)
Definition mapFields (m : gmap string string) : list (string * string) :=
  merge_sort keyLe (map_to_list m).

(** One object, indented under an array element: every field on a line
    of its own, four spaces in. *)
Definition indentObject (fields : list (string * string)) : string :=
  match fields with
  | [] => "{}"
  | _ =>
      "{" +:+ LF +:+
      strings.Join
        (map (fun kv => "    " +:+ appendString kv.1 +:+ ": " +:+ appendString kv.2) fields)
        ("," +:+ LF) +:+
      LF +:+ "  }"
  end.

(** The array, with prefix empty and indent two spaces. *)
Definition indentArray (objs : list (list (string * string))) : string :=
  match objs with
  | [] => "[]"
  | _ =>
      "[" +:+ LF +:+
      strings.Join (map (fun o => "  " +:+ indentObject o) objs) ("," +:+ LF) +:+
      LF +:+ "]"
  end.

(** [json.MarshalIndent(v, prefix = empty, indent = two spaces)] for a
    non-nil [[]map[string]string]; strings always encode, so the error
    is [nil]. *)
Definition MarshalIndent (v : list (gmap string string)) : string * option error :=
  (indentArray (map mapFields v), None).

End json.

(* ===================================================================== *)
(** * The rendering file: [render] and its helpers *)
(* ===================================================================== *)

Definition applyCellOpts (v : string) (o : Options) : string :=
  let v := if String.eqb v EmptyString && negb (String.eqb (NullPlaceholder o) EmptyString)
           then NullPlaceholder o else v in
  if (MaxColumnWidth o >? 0) && (utf8.RuneCountInString v >? MaxColumnWidth o) then
    let runes := utf8.runes v in
    if MaxColumnWidth o >? 3 then
      utf8.stringOfRunes (take (Z.to_nat (MaxColumnWidth o - 3)) runes) +:+ "..."
    else
      utf8.stringOfRunes (take (Z.to_nat (MaxColumnWidth o)) runes)
  else v.

(** colWidths computes the max display width of each column across
    headers + rows. *)
Definition colWidths (o : Options) (rows : list (list string)) : list Z :=
  let numCols := length (Headers o) in
  let numCols := forRange rows (fun _ r numCols =>
                   if (numCols <? length r)%nat then length r else numCols) numCols in
  let widths := replicate numCols 0 in
  let widths := forRange (Headers o) (fun i h widths =>
                   let w := utf8.RuneCountInString h in
                   if w >? at_ widths i 0 then <[i:=w]> widths else widths) widths in
  let widths := forRange rows (fun _ r widths =>
                   forRange r (fun i c widths =>
                     let c := applyCellOpts c o in
                     let w := utf8.RuneCountInString c in
                     if w >? at_ widths i 0 then <[i:=w]> widths else widths) widths) widths in
  if MaxColumnWidth o >? 0 then
    forRange widths (fun i _ widths =>
      if at_ widths i 0 >? MaxColumnWidth o then <[i:=MaxColumnWidth o]> widths
      else widths) widths
  else widths.

(** Go's [pad / 2] truncates toward zero ([Z.quot]). *)
Definition alignCell (s : string) (width : Z) (align : Alignment) : string :=
  let slen := utf8.RuneCountInString s in
  let pad := width - slen in
  if pad <=? 0 then s
  else if align =? AlignRight then strings.Repeat " " pad +:+ s
  else if align =? AlignCenter then
    let left := Z.quot pad 2 in
    let right := pad - left in
    strings.Repeat " " left +:+ s +:+ strings.Repeat " " right
  else s +:+ strings.Repeat " " pad.

Definition getAlign (o : Options) (col : nat) : Alignment :=
  if (col <? length (Alignments o))%nat then at_ (Alignments o) col AlignLeft
  else AlignLeft.

Definition buildHorizontalBorder (widths : list Z) (left mid right fill : string) : string :=
  let b := EmptyString in
  let b := WriteString b left in
  let b := forRange widths (fun i w b =>
             let b := WriteString b (strings.Repeat fill (w + 2)) in
             if Z.of_nat i <? len widths - 1 then WriteString b mid else b) b in
  let b := WriteString b right in
  b.

Definition renderPlain (o : Options) (rows : list (list string)) : string * option error :=
  let widths := colWidths o rows in
  if len widths =? 0 then (EmptyString, None)
  else
    let b := EmptyString in
    (* top border *)
    let b := WriteString b (buildHorizontalBorder widths "┌" "┬" "┐" "─") in
    (* headers *)
    let b :=
      if len (Headers o) >? 0 then
        let b := WriteString b (LF +:+ "│") in
        let b := forRange (Headers o) (fun i h b =>
                   let h := applyCellOpts h o in
                   WriteString b (" " +:+ alignCell h (at_ widths i 0) (getAlign o i) +:+ " │")) b in
        (* fill missing header cols *)
        let b := forLoop (length (Headers o)) (length widths) (fun i b =>
                   WriteString b (" " +:+ strings.Repeat " " (at_ widths i 0) +:+ " │")) b in
        let b := WriteString b LF in
        WriteString b (buildHorizontalBorder widths "├" "┼" "┤" "─")
      else b in
    (* rows *)
    let b := forRange rows (fun _ r b =>
               let b := WriteString b (LF +:+ "│") in
               forLoop 0 (length widths) (fun i b =>
                 let v := EmptyString in
                 let v := if (i <? length r)%nat then at_ r i EmptyString else v in
                 let v := applyCellOpts v o in
                 WriteString b (" " +:+ alignCell v (at_ widths i 0) (getAlign o i) +:+ " │")) b) b in
    (* bottom border *)
    let b := WriteString b LF in
    let b := WriteString b (buildHorizontalBorder widths "└" "┴" "┘" "─") in
    let b := WriteString b LF in
    (b, None).

Definition renderMarkdown (o : Options) (rows : list (list string)) : string * option error :=
  let widths := colWidths o rows in
  if len widths =? 0 then (EmptyString, None)
  else
    let b := EmptyString in
    (* header row *)
    let b := WriteString b "|" in
    let headers := Headers o in
    let b := forLoop 0 (length widths) (fun i b =>
               let h := EmptyString in
               let h := if (i <? length headers)%nat then at_ headers i EmptyString else h in
               let h := applyCellOpts h o in
               WriteString b (" " +:+ alignCell h (at_ widths i 0) (getAlign o i) +:+ " |")) b in
    let b := WriteString b LF in
    (* separator row *)
    let b := WriteString b "|" in
    let b := forRange widths (fun i w b =>
               let align := getAlign o i in
               let sep := strings.Repeat "-" w in
               if align =? AlignRight then WriteString b (" " +:+ sep +:+ ":|")
               else if align =? AlignCenter then WriteString b (":" +:+ sep +:+ ":|")
               else WriteString b (" " +:+ sep +:+ " |")) b in
    let b := WriteString b LF in
    (* data rows *)
    let b := forRange rows (fun _ r b =>
               let b := WriteString b "|" in
               let b := forLoop 0 (length widths) (fun i b =>
                          let v := EmptyString in
                          let v := if (i <? length r)%nat then at_ r i EmptyString else v in
                          let v := applyCellOpts v o in
                          WriteString b (" " +:+ alignCell v (at_ widths i 0) (getAlign o i) +:+ " |")) b in
               WriteString b LF) b in
    (b, None).

Definition csvRow (cols : list string) : string :=
  let escaped := replicate (length cols) EmptyString in
  let escaped := forRange cols (fun i c escaped =>
                   let c := if strings.ContainsAny c (DQ +:+ "," +:+ LF)
                            then DQ +:+ strings.ReplaceAllByte c "034"%char (DQ +:+ DQ) +:+ DQ
                            else c in
                   <[i:=c]> escaped) escaped in
  strings.Join escaped ",".

Definition renderCSV (o : Options) (rows : list (list string)) : string * option error :=
  let b := EmptyString in
  let b :=
    if len (Headers o) >? 0 then
      let b := WriteString b (csvRow (Headers o)) in
      WriteString b LF
    else b in
  let b := forRange rows (fun _ r b =>
             let cells := replicate (length r) EmptyString in
             let cells := forRange r (fun i v cells => <[i:=applyCellOpts v o]> cells) cells in
             let b := WriteString b (csvRow cells) in
             WriteString b LF) b in
  (b, None).

(** The slice [result] that [renderJSON] hands to the encoder. *)
Definition jsonResult (o : Options) (rows : list (list string)) : list (gmap string string) :=
  forRange rows (fun _ r result =>
    let obj : gmap string string := ∅ in
    let obj := forRange (Headers o) (fun i h obj =>
                 let v := EmptyString in
                 let v := if (i <? length r)%nat then applyCellOpts (at_ r i EmptyString) o else v in
                 <[h:=v]> obj) obj in
    result ++ [obj]) [].

Definition renderJSON (o : Options) (rows : list (list string)) : string * option error :=
  if len (Headers o) =? 0 then (EmptyString, Some ErrMissingHeaders)
  else
    let result := jsonResult o rows in
    match json.MarshalIndent result with
    | (_, Some _) => (EmptyString, Some ErrMarshal)
    | (data, None) => (data +:+ LF, None)
    end.

Definition renderSimple (o : Options) (rows : list (list string)) : string * option error :=
  let widths := colWidths o rows in
  if len widths =? 0 then (EmptyString, None)
  else
    let b := EmptyString in
    let b :=
      if len (Headers o) >? 0 then
        let b := forLoop 0 (length widths) (fun i b =>
                   let h := EmptyString in
                   let h := if (i <? length (Headers o))%nat
                            then at_ (Headers o) i EmptyString else h in
                   let h := applyCellOpts h o in
                   let b := if (0 <? i)%nat then WriteString b "  " else b in
                   WriteString b (alignCell h (at_ widths i 0) (getAlign o i))) b in
        let b := WriteString b LF in
        let b := forRange widths (fun i w b =>
                   let b := if (0 <? i)%nat then WriteString b "  " else b in
                   WriteString b (strings.Repeat "-" w)) b in
        WriteString b LF
      else b in
    let b := forRange rows (fun _ r b =>
               let b := forLoop 0 (length widths) (fun i b =>
                          let v := EmptyString in
                          let v := if (i <? length r)%nat then at_ r i EmptyString else v in
                          let v := applyCellOpts v o in
                          let b := if (0 <? i)%nat then WriteString b "  " else b in
                          WriteString b (alignCell v (at_ widths i 0) (getAlign o i))) b in
               WriteString b LF) b in
    (b, None).

Definition render (o : Options) (rows : list (list string)) : string * option error :=
  if Format_ o =? FormatMarkdown then renderMarkdown o rows
  else if Format_ o =? FormatCSV then renderCSV o rows
  else if Format_ o =? FormatJSON then renderJSON o rows
  else if Format_ o =? FormatSimple then renderSimple o rows
  else renderPlain o rows.

(** The methods of the row store that render, and the package-level
    [Render]. *)
Definition RenderErr (t : Table) : string * option error := render (opts t) (rows t).
Definition Table_Render (t : Table) : string := fst (RenderErr t).
Definition Render (o : Options) (rows : list (list string)) : string * option error :=
  render o rows.


(* ===================================================================== *)
(** * Predicates used in the statements *)
(* ===================================================================== *)

(** A Unicode scalar value: what the decoder can yield. *)
Definition validRune (r : Z) : Prop :=
  0 <= r <= utf8.maxRune ∧ ¬ (utf8.surrogateMin <= r <= utf8.surrogateMax).

(** The first byte of [t], if any, is below [utf8.RuneSelf]. *)
Definition asciiHead (t : string) : Prop :=
  match t with
  | EmptyString => True
  | String c _ => byteZ c < utf8.runeSelf
  end.

(** [suffix] ends [s]. *)
Definition HasSuffix (s suffix : string) : Prop := ∃ p, s = p +:+ suffix.

(** The first step of [applyCellOpts]: the placeholder stands in for an
    empty cell when one is configured. *)
Definition substitute (v : string) (o : Options) : string :=
  if String.eqb v EmptyString && negb (String.eqb (NullPlaceholder o) EmptyString)
  then NullPlaceholder o else v.

(** A buffer that is empty or ends with a line feed. *)
Definition endsLF (b : string) : Prop := b = EmptyString ∨ HasSuffix b LF.

(** The strings of a list, one after the other. *)
Fixpoint concatS (l : list string) : string :=
  match l with
  | [] => EmptyString
  | s :: l' => s +:+ concatS l'
  end.

(** ** CSV, following the words of the specification

    Each row: cells normalized, joined with commas; a cell containing a
    comma, a double quote or a newline is wrapped in double quotes with
    internal double quotes doubled; every line ends with a newline; the
    header line is there only if the headers are non-empty. *)
Module Spec.

(** ** Cell normalization, following the words of the specification

    Empty string to nullPlaceholder if non-empty.  Then, if
    maxColumnWidth > 0 and the code-point length of the value, possibly
    substituted, exceeds it: if the limit exceeds 3, truncate to limit - 3
    code points and append three dots; otherwise truncate to exactly limit
    code points. *)

(** The first [n] code points of [v], as a string. *)
Definition firstCodePoints (n : Z) (v : string) : string :=
  utf8.stringOfRunes (take (Z.to_nat n) (utf8.runes v)).

Definition truncate (limit : Z) (v : string) : string :=
  if 3 <? limit then firstCodePoints (limit - 3) v +:+ "..."
  else firstCodePoints limit v.

Definition normalize (o : Options) (v : string) : string :=
  let s := substitute v o in
  if (0 <? MaxColumnWidth o) && (MaxColumnWidth o <? Z.of_nat (length (utf8.runes s)))
  then truncate (MaxColumnWidth o) s
  else s.

Definition isSpecial (a : ascii) : bool :=
  Ascii.eqb a ","%char || Ascii.eqb a "034"%char || Ascii.eqb a "010"%char.

Definition needsQuoting (c : string) : bool :=
  existsb isSpecial (list_ascii_of_string c).

Definition doubleQuotes (c : string) : string :=
  string_of_list_ascii
    (flat_map (fun a => if Ascii.eqb a "034"%char then ["034"%char; "034"%char] else [a])
              (list_ascii_of_string c)).

Definition csvField (c : string) : string :=
  if needsQuoting c then DQ +:+ doubleQuotes c +:+ DQ else c.

Definition csvLine (cells : list string) : string :=
  strings.Join (map csvField cells) "," +:+ LF.

Definition csvDocument (o : Options) (rows : list (list string)) : string :=
  (match Headers o with [] => EmptyString | _ => csvLine (Headers o) end) +:+
  concatS (map (fun r => csvLine (map (normalize o) r)) rows).

(** ** Column widths, following the words of the specification

    Column count = max(header count, max row length).  For each column
    i, width[i] = max over the header at i, if present, and the
    normalized cell at i of every row that has one, of the code-point
    length; a positive maxColumnWidth is a ceiling on it. *)

Definition numCols (o : Options) (rows : list (list string)) : nat :=
  fold_left (fun n r => Nat.max n (length r)) rows (length (Headers o)).

(** The larger of [acc] and the measure of the cell at [i], if any. *)
Definition measure (g : string → Z) (cells : list string) (i : nat) (acc : Z) : Z :=
  match cells !! i with
  | Some c => Z.max (g c) acc
  | None => acc
  end.

Definition rawWidth (o : Options) (rows : list (list string)) (i : nat) : Z :=
  fold_left (fun acc r => measure (fun c => utf8.RuneCountInString (applyCellOpts c o)) r i acc)
            rows
            (measure utf8.RuneCountInString (Headers o) i 0).

Definition ceiling (o : Options) (w : Z) : Z :=
  if MaxColumnWidth o >? 0 then Z.min w (MaxColumnWidth o) else w.

Definition colWidth (o : Options) (rows : list (list string)) (i : nat) : Z :=
  ceiling o (rawWidth o rows i).

Definition colWidths (o : Options) (rows : list (list string)) : list Z :=
  map (colWidth o rows) (seq 0 (numCols o rows)).

(** Column width, as the glossary of the specification has it: the
    maximum normalized code-point length among a header and all row
    cells in that column, capped by maxColumnWidth. *)
Definition normalizedWidth (o : Options) (rows : list (list string)) (i : nat) : Z :=
  ceiling o
    (fold_left (fun acc cells =>
                  measure (fun c => utf8.RuneCountInString (normalize o c)) cells i acc)
               (Headers o :: rows) 0).

Definition normalizedWidths (o : Options) (rows : list (list string)) : list Z :=
  map (normalizedWidth o rows) (seq 0 (numCols o rows)).

End Spec.

(** The list [f 0; ...; f (n - 1)]. *)
Definition tab (f : nat → Z) (n : nat) : list Z := map f (seq 0 n).

(** The update [if w > widths[i] { widths[i] = w }] of [colWidths]. *)
Definition raise (w : Z) (i : nat) (widths : list Z) : list Z :=
  if w >? at_ widths i 0 then <[i:=w]> widths else widths.

(** The update [if widths[i] > m { widths[i] = m }] of [colWidths]. *)
Definition lower (m : Z) (i : nat) (widths : list Z) : list Z :=
  if at_ widths i 0 >? m then <[i:=m]> widths else widths.

(** The options with the headers taken out, and the headers as one more
    row in front: the headers measured the way data cells are. *)
Definition headersAsRow (o : Options) (rows : list (list string)) : list (list string) :=
  Headers o :: rows.

(** ** JSON: the parts of [renderJSON], named *)

(** The value [renderJSON] stores under the header of column [i] for the
    row [r]. *)
Definition jsonCell (o : Options) (r : list string) (i : nat) : string :=
  if (i <? length r)%nat then applyCellOpts (at_ r i EmptyString) o else EmptyString.

(** The map [obj] that [renderJSON] builds for the row [r]. *)
Definition jsonObject (o : Options) (r : list string) : gmap string string :=
  forRange (Headers o) (fun i h obj => <[h:=jsonCell o r i]> obj) ∅.

(** The objects of the rendered array, each as its fields (key, value) in
    the order they are written. *)
Definition jsonObjects (o : Options) (rows : list (list string)) : list (list (string * string)) :=
  map json.mapFields (jsonResult o rows).

(** Every object lists its keys in the order of the headers. *)
Definition keysFollowHeaders (o : Options) (rows : list (list string)) : Prop :=
  Forall (fun fields => map fst fields = Headers o) (jsonObjects o rows).

(** ** The lines of the fixed-width formats, named *)

(** [v := empty; if i < len(cells) { v = cells[i] }]. *)
Definition cellAt (cells : list string) (i : nat) : string :=
  if (i <? length cells)%nat then at_ cells i EmptyString else EmptyString.

(** The cell of column [i] as Plain, Markdown and Simple write it:
    normalized, then aligned to the width of the column. *)
Definition renderedCell (o : Options) (widths : list Z) (cells : list string) (i : nat) : string :=
  alignCell (applyCellOpts (cellAt cells i) o) (at_ widths i 0) (getAlign o i).

(** A header or data line of Markdown. *)
Definition mdLine (o : Options) (widths : list Z) (cells : list string) : string :=
  "|" +:+
  concatS (map (fun i => " " +:+ renderedCell o widths cells i +:+ " |") (seq 0 (length widths)))
  +:+ LF.

(** The separator cell of Markdown for column [i] of width [w]. *)
Definition mdSepCell (o : Options) (i : nat) (w : Z) : string :=
  if getAlign o i =? AlignRight then " " +:+ strings.Repeat "-" w +:+ ":|"
  else if getAlign o i =? AlignCenter then ":" +:+ strings.Repeat "-" w +:+ ":|"
  else " " +:+ strings.Repeat "-" w +:+ " |".

Definition mdSeparator (o : Options) (widths : list Z) : string :=
  "|" +:+
  concatS (map (fun i => mdSepCell o i (at_ widths i 0)) (seq 0 (length widths)))
  +:+ LF.

(** The two spaces between the columns of Simple. *)
Definition gap (i : nat) : string := if (0 <? i)%nat then "  " else EmptyString.

(** A header or data line of Simple. *)
Definition simpleLine (o : Options) (widths : list Z) (cells : list string) : string :=
  concatS (map (fun i => gap i +:+ renderedCell o widths cells i) (seq 0 (length widths)))
  +:+ LF.

Definition simpleSeparator (widths : list Z) : string :=
  concatS (map (fun i => gap i +:+ strings.Repeat "-" (at_ widths i 0)) (seq 0 (length widths)))
  +:+ LF.

(** A data line of Plain; the line feed comes first. *)
Definition plainLine (o : Options) (widths : list Z) (cells : list string) : string :=
  LF +:+ "│" +:+
  concatS (map (fun i => " " +:+ renderedCell o widths cells i +:+ " │") (seq 0 (length widths))).

(** The header line of Plain: the headers as cells, then blanks for the
    columns that have no header. *)
Definition plainHeaderLine (o : Options) (widths : list Z) : string :=
  LF +:+ "│" +:+
  concatS (map (fun i => " " +:+ renderedCell o widths (Headers o) i +:+ " │")
               (seq 0 (length (Headers o)))) +:+
  concatS (map (fun i => " " +:+ strings.Repeat " " (at_ widths i 0) +:+ " │")
               (seq (length (Headers o)) (length widths - length (Headers o)))).

(** ** Uniform normalization, as two statements about the headers *)

(** CSV writes the header line the way it writes a data row holding the
    same cells. *)
Definition csvHeadersNormalized (o : Options) (rows : list (list string)) : Prop :=
  renderCSV o rows = renderCSV (WithHeaders o []) (headersAsRow o rows).

(** [colWidths] measures the headers the way it measures a data row
    holding the same cells. *)
Definition headersMeasuredNormalized (o : Options) (rows : list (list string)) : Prop :=
  colWidths o rows = colWidths (WithHeaders o []) (headersAsRow o rows).

(** ** The row store: which rows [AddRows] takes *)

(** [AddRow] accepts the row [r] under the options [o]. *)
Definition rowAccepted (o : Options) (r : list string) : bool :=
  negb (StrictColumnCount o && (0 <? len (Headers o)) && negb (len r =? len (Headers o))).

(** The rows of [rs] up to, and without, the first one [AddRow] rejects. *)
Fixpoint acceptedPrefix (o : Options) (rs : list (list string)) : list (list string) :=
  match rs with
  | [] => []
  | r :: rs' => if rowAccepted o r then r :: acceptedPrefix o rs' else []
  end.

(** ** Lines and their widths *)

(** The first byte of [t], if any, is not a continuation byte: [t] does
    not start in the middle of a code point. *)
Definition startsRune (t : string) : Prop :=
  match t with
  | EmptyString => True
  | String c _ => utf8.isCont (byteZ c) = false
  end.

Definition sumZ (l : list Z) : Z := fold_right Z.add 0 l.

(** The text made of the given lines, each ended by a line feed. *)
Definition unlines (lines : list string) : string :=
  concatS (map (fun l => l +:+ LF) lines).

(** The width, in code points, of a line of the Plain and Markdown
    formats: one bar, then every column with a space on both sides and a
    bar. *)
Definition tableWidth (widths : list Z) : Z := 1 + sumZ (map (fun w => w + 3) widths).

(** The width of a line of the Simple format: the columns, two spaces
    between neighbours. *)
Definition simpleWidth (widths : list Z) : Z := sumZ (map (fun w => w + 2) widths) - 2.

(** A data line of Plain without the line feed in front of it. *)
Definition plainRow (o : Options) (widths : list Z) (cells : list string) : string :=
  "│" +:+
  concatS (map (fun i => " " +:+ renderedCell o widths cells i +:+ " │") (seq 0 (length widths))).

(** The header line of Plain without the line feed in front of it. *)
Definition plainHeaderRow (o : Options) (widths : list Z) : string :=
  "│" +:+
  concatS (map (fun i => " " +:+ renderedCell o widths (Headers o) i +:+ " │")
               (seq 0 (length (Headers o)))) +:+
  concatS (map (fun i => " " +:+ strings.Repeat " " (at_ widths i 0) +:+ " │")
               (seq (length (Headers o)) (length widths - length (Headers o)))).

(** A Markdown or Simple line without its line feed. *)
Definition mdRow (o : Options) (widths : list Z) (cells : list string) : string :=
  "|" +:+
  concatS (map (fun i => " " +:+ renderedCell o widths cells i +:+ " |") (seq 0 (length widths))).

Definition mdSeparatorRow (o : Options) (widths : list Z) : string :=
  "|" +:+ concatS (map (fun i => mdSepCell o i (at_ widths i 0)) (seq 0 (length widths))).

Definition simpleRow (o : Options) (widths : list Z) (cells : list string) : string :=
  concatS (map (fun i => gap i +:+ renderedCell o widths cells i) (seq 0 (length widths))).

Definition simpleSeparatorRow (widths : list Z) : string :=
  concatS (map (fun i => gap i +:+ strings.Repeat "-" (at_ widths i 0)) (seq 0 (length widths))).

(** No normalized cell can be wider than what [colWidths] measured:
    either no placeholder is configured, or there are headers, none of
    them empty, one for every column, and every row has a cell for every
    column. *)
Definition wellFilled (o : Options) (rows : list (list string)) : Prop :=
  NullPlaceholder o = EmptyString ∨
  ((∀ h, h ∈ Headers o → h ≠ EmptyString) ∧
   length (Headers o) = Spec.numCols o rows ∧
   ∀ r, r ∈ rows → length r = Spec.numCols o rows).

(** ** Reading a CSV line back

    A reader of one CSV record in the manner of RFC 4180, used only to
    show that [csvRow] loses nothing: a field is quoted when it starts
    with a double quote, a doubled double quote inside it stands for one,
    and commas outside quotes separate the fields. *)
Module Reader.

Inductive mode : Type :=
  | Start       (* at the first byte of a field *)
  | Bare        (* inside a field that is not quoted *)
  | Quoted      (* inside a quoted field *)
  | QuoteSeen.  (* after a double quote inside a quoted field *)

Definition snoc (cur : string) (c : ascii) : string := cur +:+ String c EmptyString.

(** The fields of [s], [cur] being what was read of the current one. *)
Fixpoint fields (m : mode) (cur : string) (s : string) : list string :=
  match s with
  | EmptyString => [cur]
  | String c s' =>
      match m with
      | Start =>
          if Ascii.eqb c "034"%char then fields Quoted cur s'
          else if Ascii.eqb c ","%char then cur :: fields Start EmptyString s'
          else fields Bare (snoc cur c) s'
      | Bare =>
          if Ascii.eqb c ","%char then cur :: fields Start EmptyString s'
          else fields Bare (snoc cur c) s'
      | Quoted =>
          if Ascii.eqb c "034"%char then fields QuoteSeen cur s'
          else fields Quoted (snoc cur c) s'
      | QuoteSeen =>
          if Ascii.eqb c "034"%char then fields Quoted (snoc cur c) s'
          else if Ascii.eqb c ","%char then cur :: fields Start EmptyString s'
          else fields Bare (snoc cur c) s'
      end
  end.

Definition record (s : string) : list string := fields Start EmptyString s.

End Reader.

(* ===================================================================== *)
(** * UTF-8 decoding, evaluated *)
(* ===================================================================== *)

Example runes_ascii : utf8.runes "a,b" = [97; 44; 98].
Proof. reflexivity. Qed.

Example runes_box : utf8.runes "┌─┐" = [0x250C; 0x2500; 0x2510].
Proof. reflexivity. Qed.

Example runes_emoji_roundtrip :
  utf8.stringOfRunes (utf8.runes "é─😀x") = "é─😀x".
Proof. vm_compute. reflexivity. Qed.

Example runes_malformed :
  utf8.runes (String (byteOf 0xE2) (String (byteOf 0x82) "a")) = [0xFFFD; 0xFFFD; 97].
Proof. reflexivity. Qed.

(* ===================================================================== *)
(** * The README and test scenarios, evaluated *)
(* ===================================================================== *)

Example render_plain_readme :
  render (WithHeaders DefaultOptions ["Name"; "Age"; "City"])
         [["Alice"; "30"; "New York"]; ["Bob"; "25"; "Los Angeles"]]
  = ("┌───────┬─────┬─────────────┐" +:+ LF +:+
     "│ Name  │ Age │ City        │" +:+ LF +:+
     "├───────┼─────┼─────────────┤" +:+ LF +:+
     "│ Alice │ 30  │ New York    │" +:+ LF +:+
     "│ Bob   │ 25  │ Los Angeles │" +:+ LF +:+
     "└───────┴─────┴─────────────┘" +:+ LF, None).
Proof. vm_compute. reflexivity. Qed.

Example render_markdown_readme :
  render (WithFormat (WithHeaders DefaultOptions ["Name"; "Score"]) FormatMarkdown)
         [["Alice"; "95"]; ["Bob"; "87"]]
  = ("| Name  | Score |" +:+ LF +:+
     "| ----- | ----- |" +:+ LF +:+
     "| Alice | 95    |" +:+ LF +:+
     "| Bob   | 87    |" +:+ LF, None).
Proof. vm_compute. reflexivity. Qed.

Example render_json_test :
  render (WithFormat (WithHeaders DefaultOptions ["Name"; "Age"]) FormatJSON)
         [["Alice"; "30"]]
  = ("[" +:+ LF +:+
     "  {" +:+ LF +:+
     "    " +:+ DQ +:+ "Age" +:+ DQ +:+ ": " +:+ DQ +:+ "30" +:+ DQ +:+ "," +:+ LF +:+
     "    " +:+ DQ +:+ "Name" +:+ DQ +:+ ": " +:+ DQ +:+ "Alice" +:+ DQ +:+ LF +:+
     "  }" +:+ LF +:+
     "]" +:+ LF, None).
Proof. vm_compute. reflexivity. Qed.

Example render_simple_test :
  render (WithFormat (WithHeaders DefaultOptions ["Col1"; "Col2"]) FormatSimple)
         [["a"; "b"]; ["c"; "d"]]
  = ("Col1  Col2" +:+ LF +:+
     "----  ----" +:+ LF +:+
     "a     b   " +:+ LF +:+
     "c     d   " +:+ LF, None).
Proof. vm_compute. reflexivity. Qed.

Example render_csv_quoting :
  render (WithFormat (WithHeaders DefaultOptions ["Field"]) FormatCSV)
         [["value with " +:+ DQ +:+ "quotes" +:+ DQ +:+ " and, comma"]]
  = ("Field" +:+ LF +:+
     DQ +:+ "value with " +:+ DQ +:+ DQ +:+ "quotes" +:+ DQ +:+ DQ +:+ " and, comma" +:+ DQ
     +:+ LF, None).
Proof. vm_compute. reflexivity. Qed.

Example render_json_no_headers :
  render (WithFormat DefaultOptions FormatJSON) [["Alice"; "30"]]
  = (EmptyString, Some ErrMissingHeaders).
Proof. reflexivity. Qed.

Example render_empty_table :
  render (WithHeaders DefaultOptions ["A"; "B"]) []
  = ("┌───┬───┐" +:+ LF +:+
     "│ A │ B │" +:+ LF +:+
     "├───┼───┤" +:+ LF +:+
     "└───┴───┘" +:+ LF, None).
Proof. vm_compute. reflexivity. Qed.

Example truncate_with_ellipsis :
  applyCellOpts "This is a very long string that should be truncated"
                (WithMaxColumnWidth DefaultOptions 10)
  = "This is...".
Proof. vm_compute. reflexivity. Qed.

Example truncate_small_limit :
  applyCellOpts "héllo" (WithMaxColumnWidth DefaultOptions 2) = "hé".
Proof. vm_compute. reflexivity. Qed.

Example align_center_odd :
  alignCell "ab" 5 AlignCenter = " ab  ".
Proof. vm_compute. reflexivity. Qed.

Example strict_mismatch :
  AddRow (New (WithStrictColumnCount (WithHeaders DefaultOptions ["A"; "B"; "C"]))) ["x"; "y"]
  = (New (WithStrictColumnCount (WithHeaders DefaultOptions ["A"; "B"; "C"])),
     Some ErrColumnMismatch).
Proof. reflexivity. Qed.

(* ===================================================================== *)
(** * Strings: append, length, last byte *)
(* ===================================================================== *)

Section StringFacts.

Lemma app_cons_s (a : ascii) (s t : string) : String a s +:+ t = String a (s +:+ t).
Proof. reflexivity. Qed.

Lemma app_nil_l_s (s : string) : EmptyString +:+ s = s.
Proof. reflexivity. Qed.

Lemma app_nil_r_s (s : string) : s +:+ EmptyString = s.
Proof.
  induction s as [|a s IH]; [reflexivity |].
  rewrite app_cons_s, IH. reflexivity.
Qed.

Lemma app_assoc_s (s1 s2 s3 : string) : (s1 +:+ s2) +:+ s3 = s1 +:+ (s2 +:+ s3).
Proof.
  induction s1 as [|a s1 IH]; [reflexivity |].
  rewrite !app_cons_s, IH. reflexivity.
Qed.

Lemma strlen_app (s1 s2 : string) : strlen (s1 +:+ s2) = (strlen s1 + strlen s2)%nat.
Proof.
  induction s1 as [|a s1 IH]; [reflexivity |].
  rewrite app_cons_s. unfold strlen in *. cbn [String.length]. rewrite IH. reflexivity.
Qed.

Lemma dropBytes_app (s t : string) : dropBytes (strlen s) (s +:+ t) = t.
Proof.
  induction s as [|a s IH]; [now destruct t |].
  rewrite app_cons_s. exact IH.
Qed.

Lemma WriteString_assoc (b s t : string) :
  WriteString (WriteString b s) t = WriteString b (s +:+ t).
Proof. unfold WriteString. apply app_assoc_s. Qed.

End StringFacts.

(* ===================================================================== *)
(** * Bytes as numbers *)
(* ===================================================================== *)

Section ByteFacts.

Lemma byteZ_range (a : ascii) : 0 <= byteZ a < 256.
Proof.
  unfold byteZ. pose proof (N_ascii_bounded a). lia.
Qed.

Lemma land_255 (x : Z) : Z.land x 255 = x mod 256.
Proof. change 255 with (Z.ones 8). rewrite Z.land_ones by lia. reflexivity. Qed.

Lemma byteZ_byteOf (x : Z) : byteZ (byteOf x) = x mod 256.
Proof.
  unfold byteZ, byteOf. rewrite land_255.
  pose proof (Z.mod_pos_bound x 256 ltac:(lia)) as Hb.
  rewrite N_ascii_embedding by lia. lia.
Qed.

Lemma byteOf_byteZ (a : ascii) : byteOf (byteZ a) = a.
Proof.
  unfold byteOf. rewrite land_255.
  rewrite Z.mod_small by apply byteZ_range.
  unfold byteZ. rewrite N2Z.id. apply ascii_N_embedding.
Qed.

(** A disjunction of two numbers with no common bit is their sum. *)
Lemma lor_add (k a b : Z) :
  0 <= k → a mod 2 ^ k = 0 → 0 <= b < 2 ^ k → Z.lor a b = a + b.
Proof.
  intros Hk Ha Hb. symmetry. apply Z.add_nocarry_lor.
  apply Z.bits_inj'. intros n Hn. rewrite Z.land_spec, Z.bits_0.
  destruct (Z.lt_ge_cases n k) as [Hlt | Hge].
  - rewrite <- (Z.mod_pow2_bits_low a k n) by lia. rewrite Ha, Z.bits_0. reflexivity.
  - rewrite <- (Z.mod_small b (2 ^ k)) by lia.
    rewrite Z.mod_pow2_bits_high by lia. apply andb_false_r.
Qed.

End ByteFacts.

(* ===================================================================== *)
(** * UTF-8: decoding what was encoded *)
(* ===================================================================== *)

Ltac dlia := Z.div_mod_to_equations; lia.

(** Resolve the integer tests of the goal by arithmetic. *)
Ltac ztest :=
  repeat match goal with
  | |- context [?a <? ?b] =>
      first [ rewrite (proj2 (Z.ltb_lt a b)) by dlia
            | rewrite (proj2 (Z.ltb_ge a b)) by dlia ]
  | |- context [?a <=? ?b] =>
      first [ rewrite (proj2 (Z.leb_le a b)) by dlia
            | rewrite (proj2 (Z.leb_gt a b)) by dlia ]
  end.

Ltac pows :=
  change (2 ^ 0) with 1; change (2 ^ 3) with 8; change (2 ^ 4) with 16;
  change (2 ^ 5) with 32; change (2 ^ 6) with 64; change (2 ^ 12) with 4096;
  change (2 ^ 18) with 262144.

Section Utf8Facts.
Import utf8.

Lemma land_mask (x k : Z) : 0 <= k → Z.land x (2 ^ k - 1) = x mod 2 ^ k.
Proof.
  intros Hk. replace (2 ^ k - 1) with (Z.ones k) by (rewrite Z.ones_equiv; lia).
  apply Z.land_ones; lia.
Qed.

Lemma dec2_eq (b0 b1 : Z) :
  Z.lor (Z.shiftl (Z.land b0 mask2) 6) (Z.land b1 maskx)
  = (b0 mod 32) * 64 + b1 mod 64.
Proof.
  change mask2 with (2 ^ 5 - 1). change maskx with (2 ^ 6 - 1).
  rewrite !land_mask by lia. rewrite Z.shiftl_mul_pow2 by lia.
  apply (lor_add 6); pows; dlia.
Qed.

Lemma dec3_eq (b0 b1 b2 : Z) :
  Z.lor (Z.lor (Z.shiftl (Z.land b0 mask3) 12) (Z.shiftl (Z.land b1 maskx) 6))
        (Z.land b2 maskx)
  = (b0 mod 16) * 4096 + (b1 mod 64) * 64 + b2 mod 64.
Proof.
  change mask3 with (2 ^ 4 - 1). change maskx with (2 ^ 6 - 1).
  rewrite !land_mask by lia. rewrite !Z.shiftl_mul_pow2 by lia.
  rewrite (lor_add 12 (b0 mod 2 ^ 4 * 2 ^ 12)) by (pows; dlia).
  apply (lor_add 6); pows; dlia.
Qed.

Lemma dec4_eq (b0 b1 b2 b3 : Z) :
  Z.lor (Z.lor (Z.lor (Z.shiftl (Z.land b0 mask4) 18) (Z.shiftl (Z.land b1 maskx) 12))
               (Z.shiftl (Z.land b2 maskx) 6))
        (Z.land b3 maskx)
  = (b0 mod 8) * 262144 + (b1 mod 64) * 4096 + (b2 mod 64) * 64 + b3 mod 64.
Proof.
  change mask4 with (2 ^ 3 - 1). change maskx with (2 ^ 6 - 1).
  rewrite !land_mask by lia. rewrite !Z.shiftl_mul_pow2 by lia.
  rewrite (lor_add 18 (b0 mod 2 ^ 3 * 2 ^ 18)) by (pows; dlia).
  rewrite (lor_add 12 (b0 mod 2 ^ 3 * 2 ^ 18 + b1 mod 2 ^ 6 * 2 ^ 12)) by (pows; dlia).
  apply (lor_add 6); pows; dlia.
Qed.

(** The bytes the encoder writes, as arithmetic. *)
Lemma enc_lead (t k r s : Z) :
  0 <= k → 0 <= s → t mod 2 ^ k = 0 → 0 <= t → 0 <= r / 2 ^ s < 2 ^ k → t + 2 ^ k <= 256 →
  byteZ (byteOf (Z.lor t (Z.land (Z.shiftr r s) 255))) = t + r / 2 ^ s.
Proof.
  intros Hk Hs Ht Ht0 Hr Hle.
  rewrite byteZ_byteOf, land_255, Z.shiftr_div_pow2 by lia.
  rewrite (Z.mod_small (r / 2 ^ s)) by lia.
  rewrite (lor_add k) by lia. apply Z.mod_small. lia.
Qed.

Lemma enc_cont (r s : Z) :
  0 <= s →
  byteZ (byteOf (Z.lor 128 (Z.land (Z.land (Z.shiftr r s) 255) maskx)))
  = 128 + (r / 2 ^ s) mod 64.
Proof.
  intros Hs. rewrite byteZ_byteOf, land_255, Z.shiftr_div_pow2 by lia.
  change maskx with (2 ^ 6 - 1). rewrite land_mask by lia. change (2 ^ 6) with 64.
  rewrite (lor_add 6) by (pows; dlia).
  dlia.
Qed.

Lemma enc_cont0 (r : Z) :
  byteZ (byteOf (Z.lor 128 (Z.land (Z.land r 255) maskx))) = 128 + r mod 64.
Proof.
  pose proof (enc_cont r 0 ltac:(lia)) as H.
  rewrite Z.shiftr_0_r in H. rewrite H. change (2 ^ 0) with 1. rewrite Z.div_1_r. reflexivity.
Qed.

End Utf8Facts.

(** From here on the names of [utf8] are used unqualified. *)
Import utf8.

Ltac consts :=
  unfold validRune, isCont, runeError, runeSelf, maxRune, surrogateMin, surrogateMax,
    tx, t2, t3, t4, t5, rune1Max, rune2Max, rune3Max, locb, hicb in *.

(** Case analysis on the integer tests of the goal, outermost first. *)
Ltac zcase1 :=
  match goal with
  | |- context [if ?c then _ else _] =>
      match c with
      | context [Z.ltb ?a ?b] => destruct (Z.ltb_spec a b)
      | context [Z.leb ?a ?b] => destruct (Z.leb_spec a b)
      end
  end; cbn [andb negb orb]; cbv iota.
Ltac zcases := repeat zcase1.

Lemma decoderune_valid (a : ascii) (s : string) (r : Z) (k : nat) :
  decoderune (String a s) = (r, k) →
  validRune r ∧ (1 <= k)%nat ∧ (k <= S (strlen s))%nat.
Proof.
  unfold decoderune. pose proof (byteZ_range a) as Ha.
  destruct s as [|a1 [|a2 [|a3 s]]]; cbv zeta;
    rewrite ?dec2_eq, ?dec3_eq, ?dec4_eq; consts; zcases;
    intros [= <- <-]; unfold strlen; cbn [String.length];
    (split; [ split; [ dlia | dlia ] | lia ]).
Qed.

Lemma runesFrom_drop (s : string) (k : nat) : runesFrom k s = runes (dropBytes k s).
Proof.
  revert k. induction s as [|a s IH]; intros [|k]; try reflexivity.
  cbn [runesFrom dropBytes]. apply IH.
Qed.

Lemma runes_cons (a : ascii) (s : string) :
  runes (String a s)
  = (decoderune (String a s)).1 :: runes (dropBytes ((decoderune (String a s)).2 - 1) s).
Proof.
  unfold runes at 1. cbn [runesFrom].
  destruct (decoderune (String a s)) as [r k]. cbn [fst snd].
  rewrite runesFrom_drop. reflexivity.
Qed.

Lemma runes_valid (s : string) : Forall validRune (runes s).
Proof.
  unfold runes. generalize 0%nat as k.
  induction s as [|a s IH]; intros k; [constructor |].
  destruct k as [|k]; cbn [runesFrom]; [| apply IH].
  destruct (decoderune (String a s)) as [r n] eqn:E.
  constructor; [| apply IH]. apply (decoderune_valid _ _ _ _ E).
Qed.

(** Decoding the encoding of a scalar value gives it back, whatever
    follows it. *)
Lemma decoderune_encoderune (r : Z) (t : string) :
  validRune r →
  decoderune (encoderune r +:+ t) = (r, strlen (encoderune r)).
Proof.
  intros [Hr Hs]. unfold encoderune.
  rewrite (Z.mod_small r (2 ^ 32)) by (consts; lia).
  destruct (Z.le_gt_cases r 0x7F) as [H1 | H1];
    [| destruct (Z.le_gt_cases r 0x7FF) as [H2 | H2];
       [| destruct (Z.le_gt_cases r 0xFFFF) as [H3 | H3]]].
  - consts. ztest. rewrite app_cons_s, app_nil_l_s.
    unfold decoderune. rewrite byteZ_byteOf. consts.
    rewrite Z.mod_small by lia. ztest. reflexivity.
  - consts. ztest. rewrite !app_cons_s, app_nil_l_s.
    unfold decoderune. cbv zeta.
    rewrite (enc_lead 192 5 r 6), enc_cont0, dec2_eq by (pows; dlia).
    pows. consts. ztest. cbn [andb]. ztest. unfold strlen. cbn [String.length].
    f_equal. dlia.
  - consts. zcases; try lia;
      rewrite !app_cons_s, app_nil_l_s;
      unfold decoderune; cbv zeta;
      rewrite (enc_lead 224 4 r 12), (enc_cont r 6), enc_cont0, dec3_eq by (pows; dlia);
      pows; consts; ztest; cbn [andb]; ztest; cbn [andb negb]; ztest; cbn [andb negb];
      unfold strlen; cbn [String.length]; f_equal; dlia.
  - consts. zcases; try lia;
      rewrite !app_cons_s, app_nil_l_s;
      unfold decoderune; cbv zeta;
      rewrite (enc_lead 240 3 r 18), (enc_cont r 12), (enc_cont r 6), enc_cont0, dec4_eq
        by (pows; dlia);
      pows; consts; ztest; cbn [andb]; ztest; cbn [andb negb]; ztest;
      unfold strlen; cbn [String.length]; f_equal; dlia.
Qed.

Lemma runes_step (s : string) (r : Z) (k : nat) :
  s ≠ EmptyString → decoderune s = (r, k) → runes s = r :: runes (dropBytes k s).
Proof.
  destruct s as [|a s]; [congruence |]. intros _ E.
  rewrite runes_cons, E. cbn [fst snd].
  destruct (decoderune_valid _ _ _ _ E) as (_ & Hk & _).
  destruct k as [|k]; [lia |]. cbn [dropBytes]. replace (S k - 1)%nat with k by lia. reflexivity.
Qed.

Lemma encoderune_nonempty (r : Z) : ∃ a s, encoderune r = String a s.
Proof.
  unfold encoderune. cbv zeta. zcases; eauto.
Qed.

Lemma runes_encoderune (r : Z) (t : string) :
  validRune r → runes (encoderune r +:+ t) = r :: runes t.
Proof.
  intros Hr. pose proof (decoderune_encoderune r t Hr) as E.
  rewrite (runes_step (encoderune r +:+ t) r (strlen (encoderune r))).
  - rewrite dropBytes_app. reflexivity.
  - destruct (encoderune_nonempty r) as (a & s & ->). discriminate.
  - exact E.
Qed.

(** [[]rune(string(rs))] is [rs] again when [rs] holds scalar values. *)
Lemma runes_stringOfRunes (rs : list Z) (t : string) :
  Forall validRune rs → runes (stringOfRunes rs +:+ t) = rs ++ runes t.
Proof.
  induction 1 as [|r rs Hr _ IH]; [reflexivity |].
  cbn [stringOfRunes]. rewrite app_assoc_s, runes_encoderune by exact Hr.
  rewrite IH. reflexivity.
Qed.

Lemma runes_ascii_cons (a : ascii) (s : string) :
  byteZ a < runeSelf → runes (String a s) = byteZ a :: runes s.
Proof.
  intros Ha. rewrite runes_cons. unfold decoderune.
  rewrite (proj2 (Z.ltb_lt _ _) Ha). reflexivity.
Qed.

(** A string that starts with an ASCII byte (or is empty) does not change
    how the bytes before it decode. *)
Lemma decoderune_app (a : ascii) (s t : string) :
  asciiHead t → decoderune (String a s +:+ t) = decoderune (String a s).
Proof.
  intros Ht. unfold decoderune. rewrite app_cons_s.
  destruct t as [|c t]; [rewrite app_nil_r_s; reflexivity |].
  cbn [asciiHead] in Ht. pose proof (byteZ_range c) as Hc.
  assert (Hnc : isCont (byteZ c) = false)
    by (consts; apply andb_false_iff; left; apply Z.leb_gt; lia).
  destruct s as [|a1 [|a2 [|a3 s]]]; rewrite ?app_cons_s, ?app_nil_l_s; cbv zeta;
    rewrite ?Hnc, ?andb_false_r; cbn [andb];
    repeat (match goal with
            | |- context [if ?c then _ else _] => destruct c
            | |- context [match ?x with EmptyString => _ | String _ _ => _ end] => destruct x
            end; cbn [andb]);
    reflexivity.
Qed.

Lemma runesFrom_app (t : string) (s : string) (k : nat) :
  asciiHead t → (k <= strlen s)%nat →
  runesFrom k (s +:+ t) = runesFrom k s ++ runes t.
Proof.
  intros Ht. revert k. induction s as [|a s IH]; intros k Hk.
  - unfold strlen in Hk. cbn in Hk. replace k with 0%nat by lia. reflexivity.
  - destruct k as [|k].
    + change (runesFrom 0 (String a s +:+ t)) with (runes (String a s +:+ t)).
      change (runesFrom 0 (String a s)) with (runes (String a s)).
      rewrite app_cons_s, !runes_cons, <- app_cons_s, decoderune_app by exact Ht.
      destruct (decoderune (String a s)) as [r n] eqn:E. cbn [fst snd].
      destruct (decoderune_valid _ _ _ _ E) as (_ & Hn1 & Hn2).
      rewrite <- !runesFrom_drop. rewrite IH by lia. reflexivity.
    + rewrite app_cons_s. cbn [runesFrom]. apply IH.
      unfold strlen in *. cbn [String.length] in Hk. lia.
Qed.

Lemma runes_app (s t : string) :
  asciiHead t → runes (s +:+ t) = runes s ++ runes t.
Proof. intros Ht. apply runesFrom_app; [exact Ht | lia]. Qed.

Lemma RuneCount_app (s t : string) :
  asciiHead t →
  RuneCountInString (s +:+ t) = RuneCountInString s + RuneCountInString t.
Proof.
  intros Ht. unfold RuneCountInString. rewrite runes_app by exact Ht.
  rewrite length_app. lia.
Qed.

Lemma RuneCount_nonneg (s : string) : 0 <= RuneCountInString s.
Proof. unfold RuneCountInString. lia. Qed.

(* ===================================================================== *)
(** * Padding *)
(* ===================================================================== *)

Lemma asciiHead_repeat_space (n : nat) : asciiHead (strings.repeatN " " n).
Proof.
  destruct n; [exact I |].
  cbn [strings.repeatN]. rewrite app_cons_s. reflexivity.
Qed.

Lemma runes_repeat_space (n : nat) (s : string) :
  runes (strings.repeatN " " n +:+ s) = replicate n 32 ++ runes s.
Proof.
  induction n as [|n IH]; [reflexivity |].
  cbn [strings.repeatN replicate]. rewrite !app_cons_s, app_nil_l_s.
  rewrite runes_ascii_cons by reflexivity.
  change (byteZ " ") with 32.
  rewrite IH. reflexivity.
Qed.

Lemma RuneCount_Repeat_space (p : Z) :
  RuneCountInString (strings.Repeat " " p) = Z.max 0 p.
Proof.
  unfold RuneCountInString, strings.Repeat.
  rewrite <- (app_nil_r_s (strings.repeatN " " (Z.to_nat p))), runes_repeat_space.
  rewrite length_app, length_replicate. cbn [runes runesFrom length]. lia.
Qed.

Lemma RuneCount_Repeat_space_l (p : Z) (s : string) :
  RuneCountInString (strings.Repeat " " p +:+ s) = Z.max 0 p + RuneCountInString s.
Proof.
  unfold RuneCountInString, strings.Repeat. rewrite runes_repeat_space.
  rewrite length_app, length_replicate. lia.
Qed.

Lemma RuneCount_Repeat_space_r (p : Z) (s : string) :
  RuneCountInString (s +:+ strings.Repeat " " p) = RuneCountInString s + Z.max 0 p.
Proof.
  rewrite RuneCount_app by apply asciiHead_repeat_space.
  rewrite RuneCount_Repeat_space. reflexivity.
Qed.

(* ===================================================================== *)
(** * applyCellOpts *)
(* ===================================================================== *)

Lemma applyCellOpts_substitute (v : string) (o : Options) :
  applyCellOpts v o =
  let s := substitute v o in
  if (MaxColumnWidth o >? 0) && (RuneCountInString s >? MaxColumnWidth o) then
    if MaxColumnWidth o >? 3 then
      stringOfRunes (take (Z.to_nat (MaxColumnWidth o - 3)) (runes s)) +:+ "..."
    else stringOfRunes (take (Z.to_nat (MaxColumnWidth o)) (runes s))
  else s.
Proof. reflexivity. Qed.

Lemma RuneCount_take (s t : string) (k : Z) :
  asciiHead t → 0 <= k <= RuneCountInString s →
  RuneCountInString (stringOfRunes (take (Z.to_nat k) (runes s)) +:+ t)
  = k + RuneCountInString t.
Proof.
  intros Ht Hk. unfold RuneCountInString in *.
  rewrite runes_stringOfRunes by (apply Forall_take, runes_valid).
  rewrite length_app, length_take. lia.
Qed.

(** C4. Truncation by [applyCellOpts], measured in code points on the
    cell after placeholder substitution: above a limit [n > 3] the result
    has exactly [n] code points, the first [n - 3] of the cell followed by
    three dots; above a limit [0 < n <= 3] it is exactly the first [n]
    code points, nothing appended; with [n = 0], or when the cell has at
    most [n] code points, the substituted value is returned as it is. *)
Theorem applyCellOpts_truncation (v : string) (o : Options) :
  let n := MaxColumnWidth o in
  let s := substitute v o in
  (3 < n ∧ n < RuneCountInString s →
     RuneCountInString (applyCellOpts v o) = n ∧
     HasSuffix (applyCellOpts v o) "..." ∧
     applyCellOpts v o = stringOfRunes (take (Z.to_nat (n - 3)) (runes s)) +:+ "...") ∧
  (0 < n <= 3 ∧ n < RuneCountInString s →
     RuneCountInString (applyCellOpts v o) = n ∧
     applyCellOpts v o = stringOfRunes (take (Z.to_nat n) (runes s)) ∧
     runes (applyCellOpts v o) = take (Z.to_nat n) (runes s)) ∧
  (n = 0 ∨ RuneCountInString s <= n → applyCellOpts v o = s).
Proof.
  intros n s. rewrite applyCellOpts_substitute. fold s n. cbv zeta.
  rewrite !Z.gtb_ltb. repeat split.
  - destruct H as [H3 Hn].
    rewrite (proj2 (Z.ltb_lt 0 n)), (proj2 (Z.ltb_lt n _) Hn), (proj2 (Z.ltb_lt 3 n) H3) by lia.
    cbn [andb]. rewrite RuneCount_take; [| reflexivity | lia].
    change (RuneCountInString "...") with 3. lia.
  - destruct H as [H3 Hn].
    rewrite (proj2 (Z.ltb_lt 0 n)), (proj2 (Z.ltb_lt n _) Hn), (proj2 (Z.ltb_lt 3 n) H3) by lia.
    cbn [andb]. eexists. reflexivity.
  - destruct H as [H3 Hn].
    rewrite (proj2 (Z.ltb_lt 0 n)), (proj2 (Z.ltb_lt n _) Hn), (proj2 (Z.ltb_lt 3 n) H3) by lia.
    reflexivity.
  - destruct H as [H3 Hn].
    rewrite (proj2 (Z.ltb_lt 0 n)), (proj2 (Z.ltb_lt n _) Hn), (proj2 (Z.ltb_ge 3 n)) by lia.
    cbn [andb].
    rewrite <- (app_nil_r_s (stringOfRunes _)), RuneCount_take; [| exact I | lia].
    change (RuneCountInString EmptyString) with 0. lia.
  - destruct H as [H3 Hn].
    rewrite (proj2 (Z.ltb_lt 0 n)), (proj2 (Z.ltb_lt n _) Hn), (proj2 (Z.ltb_ge 3 n)) by lia.
    reflexivity.
  - destruct H as [H3 Hn].
    rewrite (proj2 (Z.ltb_lt 0 n)), (proj2 (Z.ltb_lt n _) Hn), (proj2 (Z.ltb_ge 3 n)) by lia.
    cbn [andb].
    rewrite <- (app_nil_r_s (stringOfRunes _)), runes_stringOfRunes
      by (apply Forall_take, runes_valid).
    apply app_nil_r.
  - intros [H0 | Hle].
    + rewrite (proj2 (Z.ltb_ge 0 n)) by lia. reflexivity.
    + rewrite (proj2 (Z.ltb_ge n _)) by lia. rewrite andb_false_r. reflexivity.
Qed.

(** [applyCellOpts] is the normalization of the specification. *)
Lemma applyCellOpts_normalize (v : string) (o : Options) :
  applyCellOpts v o = Spec.normalize o v.
Proof.
  rewrite applyCellOpts_substitute.
  unfold Spec.normalize, Spec.truncate, Spec.firstCodePoints. cbv zeta.
  rewrite !Z.gtb_ltb. reflexivity.
Qed.

(* ===================================================================== *)
(** * The row store *)
(* ===================================================================== *)

Lemma len_pos_iff {A : Type} (xs : list A) : 0 < len xs ↔ xs ≠ [].
Proof. unfold len. destruct xs; cbn [length]; split; intros; try congruence; lia. Qed.

(** The two ways [AddRow] can go. *)
Lemma AddRow_cases (t : Table) (cols : list string) :
  let mismatch := StrictColumnCount (opts t) = true
                  ∧ Headers (opts t) ≠ []
                  ∧ length cols ≠ length (Headers (opts t)) in
  (mismatch ∧ AddRow t cols = (t, Some ErrColumnMismatch)) ∨
  (¬ mismatch ∧ AddRow t cols = ({| opts := opts t; rows := rows t ++ [cols] |}, None)).
Proof.
  cbv zeta. unfold AddRow.
  destruct (StrictColumnCount (opts t)); cbn [andb]; [| right; split; [intros (Hs & _); discriminate | reflexivity]].
  destruct (Z.ltb_spec 0 (len (Headers (opts t)))) as [Hh | Hh].
  - apply len_pos_iff in Hh.
    destruct (Z.eqb_spec (len cols) (len (Headers (opts t)))) as [He | He]; cbn [negb];
      unfold len in He.
    + right. split; [| reflexivity]. intros (_ & _ & Hne). lia.
    + left. split; [| reflexivity]. repeat split; [exact Hh | lia].
  - right. split; [| reflexivity]. intros (_ & Hne & _).
    apply len_pos_iff in Hne. lia.
Qed.

(** C5. [AddRow] fails, with [ErrColumnMismatch], exactly when the table
    is strict, has headers, and the row's length differs from the header
    count; a failed call leaves the table (rows and row count) as it was;
    a successful call appends the row last and raises the row count by
    one. *)
Theorem AddRow_strict_atomic (t : Table) (cols : list string) :
  let mismatch := StrictColumnCount (opts t) = true
                  ∧ Headers (opts t) ≠ []
                  ∧ length cols ≠ length (Headers (opts t)) in
  ((AddRow t cols).2 = Some ErrColumnMismatch ↔ mismatch) ∧
  ((AddRow t cols).2 = None ↔ ¬ mismatch) ∧
  (mismatch →
     (AddRow t cols).1 = t ∧
     rows (AddRow t cols).1 = rows t ∧
     RowCount (AddRow t cols).1 = RowCount t) ∧
  (¬ mismatch →
     rows (AddRow t cols).1 = rows t ++ [cols] ∧
     opts (AddRow t cols).1 = opts t ∧
     RowCount (AddRow t cols).1 = RowCount t + 1).
Proof.
  intros mismatch.
  destruct (AddRow_cases t cols) as [[Hm ->] | [Hm ->]]; fold mismatch in Hm;
    cbn [fst snd rows opts].
  - split; [split; [intros _; exact Hm | reflexivity] |].
    split; [split; [discriminate | intros H; contradiction] |].
    split; [intros _; repeat split | intros H; contradiction].
  - split; [split; [discriminate | intros H; contradiction] |].
    split; [split; [intros _; exact Hm | reflexivity] |].
    split; [intros H; contradiction |].
    intros _. repeat split. unfold RowCount, len. cbn [rows].
    rewrite length_app. cbn [length]. lia.
Qed.

(* ===================================================================== *)
(** * Loops *)
(* ===================================================================== *)

Section LoopFacts.
Context {A St : Type}.

Lemma forRangeFrom_ind (P : St → Prop) (body : nat → A → St → St) (xs : list A) :
  (∀ i x st, P st → P (body i x st)) →
  ∀ i st, P st → P (forRangeFrom i xs body st).
Proof.
  intros Hb. induction xs as [|x xs IH]; intros i st Hst; cbn [forRangeFrom]; auto.
Qed.

Lemma forRange_ind (P : St → Prop) (body : nat → A → St → St) (xs : list A) (st : St) :
  P st → (∀ i x st, P st → P (body i x st)) → P (forRange xs body st).
Proof. intros Hst Hb. unfold forRange. apply forRangeFrom_ind; assumption. Qed.

(** A loop whose last statement establishes [P] leaves [P], or did not run. *)
Lemma forRange_last (P : St → Prop) (body : nat → A → St → St) (xs : list A) (st : St) :
  (∀ i x st, P (body i x st)) → xs = [] ∨ P (forRange xs body st).
Proof.
  intros Hb. destruct xs as [|x xs]; [left; reflexivity | right].
  unfold forRange. cbn [forRangeFrom]. apply forRangeFrom_ind; auto.
Qed.

Lemma forRange_nil (body : nat → A → St → St) (st : St) : forRange [] body st = st.
Proof. reflexivity. Qed.

End LoopFacts.

(* ===================================================================== *)
(** * Errors of [render] *)
(* ===================================================================== *)

Lemma renderPlain_nil_error (o : Options) (rows : list (list string)) :
  (renderPlain o rows).2 = None.
Proof. unfold renderPlain. cbv zeta. destruct (len _ =? 0); reflexivity. Qed.

Lemma renderMarkdown_nil_error (o : Options) (rows : list (list string)) :
  (renderMarkdown o rows).2 = None.
Proof. unfold renderMarkdown. cbv zeta. destruct (len _ =? 0); reflexivity. Qed.

Lemma renderSimple_nil_error (o : Options) (rows : list (list string)) :
  (renderSimple o rows).2 = None.
Proof. unfold renderSimple. cbv zeta. destruct (len _ =? 0); reflexivity. Qed.

Lemma renderCSV_nil_error (o : Options) (rows : list (list string)) :
  (renderCSV o rows).2 = None.
Proof. reflexivity. Qed.

Lemma len_zero_iff {A : Type} (xs : list A) : len xs = 0 ↔ xs = [].
Proof. unfold len. destruct xs; cbn [length]; split; intros; try congruence; lia. Qed.

Lemma renderJSON_error (o : Options) (rows : list (list string)) :
  (Headers o = [] ∧ renderJSON o rows = (EmptyString, Some ErrMissingHeaders)) ∨
  (Headers o ≠ [] ∧ (renderJSON o rows).2 ≠ Some ErrMissingHeaders).
Proof.
  unfold renderJSON. destruct (Z.eqb_spec (len (Headers o)) 0) as [H | H].
  - left. split; [apply len_zero_iff, H | reflexivity].
  - right. split; [intros Hn; apply H, len_zero_iff, Hn |].
    cbv zeta. destruct (json.MarshalIndent _) as [d [e |]]; discriminate.
Qed.

(** The dispatch of [render], one format at a time. *)
Lemma render_cases (o : Options) (rows : list (list string)) :
  (Format_ o = FormatMarkdown ∧ render o rows = renderMarkdown o rows) ∨
  (Format_ o = FormatCSV ∧ render o rows = renderCSV o rows) ∨
  (Format_ o = FormatJSON ∧ render o rows = renderJSON o rows) ∨
  (Format_ o = FormatSimple ∧ render o rows = renderSimple o rows) ∨
  (Format_ o ≠ FormatJSON ∧ render o rows = renderPlain o rows).
Proof.
  unfold render.
  destruct (Z.eqb_spec (Format_ o) FormatMarkdown); [tauto |].
  destruct (Z.eqb_spec (Format_ o) FormatCSV); [tauto |].
  destruct (Z.eqb_spec (Format_ o) FormatJSON); [tauto |].
  destruct (Z.eqb_spec (Format_ o) FormatSimple); tauto.
Qed.

(** C7. Whatever the headers and the rows, [render] returns a nil error
    for every format other than JSON: Plain, Markdown, CSV and Simple (and
    any other value of [Format], which renders as Plain) never fail. *)
Theorem render_only_JSON_fails (o : Options) (rows : list (list string)) :
  Format_ o ≠ FormatJSON → (render o rows).2 = None.
Proof.
  intros Hf.
  destruct (render_cases o rows) as [[_ ->] | [[_ ->] | [[E _] | [[_ ->] | [_ ->]]]]].
  - apply renderMarkdown_nil_error.
  - apply renderCSV_nil_error.
  - contradiction.
  - apply renderSimple_nil_error.
  - apply renderPlain_nil_error.
Qed.

Lemma render_only_JSON_fails_witness :
  Format_ (WithFormat (WithHeaders DefaultOptions []) FormatCSV) ≠ FormatJSON ∧
  (render (WithFormat (WithHeaders DefaultOptions []) FormatCSV)
          [["a"; "b"]; []; ["c"]]).2 = None.
Proof.
  split; [discriminate |].
  apply (render_only_JSON_fails (WithFormat (WithHeaders DefaultOptions []) FormatCSV)).
  discriminate.
Defined.

(** C8. With the JSON format [render] returns [ErrMissingHeaders] if and
    only if there are no headers; it then returns the empty string,
    whatever the rows; no other format returns [ErrMissingHeaders]. *)
Theorem render_MissingHeaders (o : Options) (rows : list (list string)) :
  ((render o rows).2 = Some ErrMissingHeaders ↔
     Format_ o = FormatJSON ∧ Headers o = []) ∧
  ((render o rows).2 = Some ErrMissingHeaders →
     ∀ rows', render o rows' = (EmptyString, Some ErrMissingHeaders)).
Proof.
  assert (Hiff : (render o rows).2 = Some ErrMissingHeaders ↔
                 Format_ o = FormatJSON ∧ Headers o = []).
  { destruct (render_cases o rows) as [[E ->] | [[E ->] | [[E ->] | [[E ->] | [E ->]]]]].
    - rewrite renderMarkdown_nil_error.
      split; [discriminate | intros [E' _]; rewrite E in E'; discriminate E'].
    - rewrite renderCSV_nil_error.
      split; [discriminate | intros [E' _]; rewrite E in E'; discriminate E'].
    - destruct (renderJSON_error o rows) as [[Hn ->] | [Hn Hs]]; cbn [snd]; tauto.
    - rewrite renderSimple_nil_error.
      split; [discriminate | intros [E' _]; rewrite E in E'; discriminate E'].
    - rewrite renderPlain_nil_error. split; [discriminate | intros [E' _]; contradiction]. }
  split; [exact Hiff |].
  intros H. apply Hiff in H as [Ef Eh]. intros rows'.
  destruct (render_cases o rows') as [[E ->] | [[E ->] | [[E ->] | [[E ->] | [E ->]]]]];
    try (rewrite Ef in E; discriminate E); try contradiction.
  destruct (renderJSON_error o rows') as [[_ ->] | [Hn _]]; [reflexivity | contradiction].
Qed.

(* ===================================================================== *)
(** * The trailing newline *)
(* ===================================================================== *)

Lemma HasSuffix_WriteString (b s : string) : HasSuffix (WriteString b s) s.
Proof. exists b. reflexivity. Qed.

Lemma renderPlain_endsLF (o : Options) (rows : list (list string)) :
  endsLF (renderPlain o rows).1.
Proof.
  unfold renderPlain. cbv zeta. destruct (len _ =? 0); [left; reflexivity | right].
  cbn [fst]. apply HasSuffix_WriteString.
Qed.

Lemma renderMarkdown_endsLF (o : Options) (rows : list (list string)) :
  endsLF (renderMarkdown o rows).1.
Proof.
  unfold renderMarkdown. cbv zeta. destruct (len _ =? 0); [left; reflexivity | right].
  cbn [fst]. apply forRange_ind.
  - apply HasSuffix_WriteString.
  - intros. apply HasSuffix_WriteString.
Qed.

Lemma renderCSV_endsLF (o : Options) (rows : list (list string)) :
  endsLF (renderCSV o rows).1.
Proof.
  unfold renderCSV. cbv zeta. cbn [fst]. apply forRange_ind.
  - destruct (len (Headers o) >? 0); [right; apply HasSuffix_WriteString | left; reflexivity].
  - intros. right. apply HasSuffix_WriteString.
Qed.

Lemma renderSimple_endsLF (o : Options) (rows : list (list string)) :
  endsLF (renderSimple o rows).1.
Proof.
  unfold renderSimple. cbv zeta. destruct (len _ =? 0); [left; reflexivity |].
  cbn [fst]. apply forRange_ind.
  - destruct (len (Headers o) >? 0); [right; apply HasSuffix_WriteString | left; reflexivity].
  - intros. right. apply HasSuffix_WriteString.
Qed.

Lemma renderJSON_endsLF (o : Options) (rows : list (list string)) :
  endsLF (renderJSON o rows).1.
Proof.
  unfold renderJSON. cbv zeta. destruct (len _ =? 0); [left; reflexivity |].
  destruct (json.MarshalIndent _) as [d [e |]]; cbn [fst]; [left; reflexivity | right].
  exists d. reflexivity.
Qed.

(** C10. Whenever [render] returns a nil error and a non-empty string,
    the string ends with a line feed, in each of the five formats. *)
Theorem render_trailing_newline (o : Options) (rows : list (list string)) :
  (render o rows).2 = None →
  (render o rows).1 ≠ EmptyString →
  HasSuffix (render o rows).1 LF.
Proof.
  intros _ Hne.
  assert (H : endsLF (render o rows).1).
  { destruct (render_cases o rows) as [[_ ->] | [[_ ->] | [[_ ->] | [[_ ->] | [_ ->]]]]].
    - apply renderMarkdown_endsLF.
    - apply renderCSV_endsLF.
    - apply renderJSON_endsLF.
    - apply renderSimple_endsLF.
    - apply renderPlain_endsLF. }
  destruct H as [H | H]; [contradiction | exact H].
Qed.

Lemma render_trailing_newline_witness :
  (render (WithFormat (WithHeaders DefaultOptions ["Col1"; "Col2"]) FormatSimple)
          [["a"; "b"]; ["c"; "d"]]).2 = None ∧
  (render (WithFormat (WithHeaders DefaultOptions ["Col1"; "Col2"]) FormatSimple)
          [["a"; "b"]; ["c"; "d"]]).1 ≠ EmptyString ∧
  HasSuffix (render (WithFormat (WithHeaders DefaultOptions ["Col1"; "Col2"]) FormatSimple)
                    [["a"; "b"]; ["c"; "d"]]).1 LF.
Proof.
  assert (H2 : (render (WithFormat (WithHeaders DefaultOptions ["Col1"; "Col2"]) FormatSimple)
                       [["a"; "b"]; ["c"; "d"]]).2 = None) by (vm_compute; reflexivity).
  assert (H1 : (render (WithFormat (WithHeaders DefaultOptions ["Col1"; "Col2"]) FormatSimple)
                       [["a"; "b"]; ["c"; "d"]]).1 ≠ EmptyString) by (vm_compute; discriminate).
  split; [exact H2 |]. split; [exact H1 |].
  exact (render_trailing_newline _ _ H2 H1).
Defined.

(* ===================================================================== *)
(** * Loops that fill a slice or a buffer *)
(* ===================================================================== *)

Section FillFacts.
Context {A B : Type}.

Lemma forRangeFrom_ext {St : Type} (body body' : nat → A → St → St) (xs : list A) :
  (∀ i x st, body i x st = body' i x st) →
  ∀ i st, forRangeFrom i xs body st = forRangeFrom i xs body' st.
Proof.
  intros He. induction xs as [|x xs IH]; intros i st; cbn [forRangeFrom]; [reflexivity |].
  rewrite He. apply IH.
Qed.

Lemma forRange_ext {St : Type} (body body' : nat → A → St → St) (xs : list A) (st : St) :
  (∀ i x st, body i x st = body' i x st) →
  forRange xs body st = forRange xs body' st.
Proof. intros He. unfold forRange. apply forRangeFrom_ext, He. Qed.

(** Writing [f x] at index [i] for every [x] of [xs] fills a slice of
    the length of [xs] with [map f xs]. *)
Lemma forRangeFrom_fill (f : A → B) (d : B) (xs : list A) (pre : list B) :
  forRangeFrom (length pre) xs (fun i x acc => <[i:=f x]> acc)
               (pre ++ replicate (length xs) d)
  = pre ++ map f xs.
Proof.
  revert pre. induction xs as [|x xs IH]; intros pre; cbn [forRangeFrom length replicate map].
  - reflexivity.
  - rewrite insert_app_r_alt by lia. rewrite Nat.sub_diag. cbn [insert list_insert].
    specialize (IH (pre ++ [f x])).
    rewrite length_app, <- !app_assoc in IH. cbn [length app] in IH.
    rewrite Nat.add_1_r in IH. exact IH.
Qed.

Lemma forRange_fill (f : A → B) (d : B) (xs : list A) :
  forRange xs (fun i x acc => <[i:=f x]> acc) (replicate (length xs) d) = map f xs.
Proof. apply (forRangeFrom_fill f d xs []). Qed.

(** Appending [g x] to the buffer for every [x]. *)
Lemma forRangeFrom_write (g : A → string) (xs : list A) (i : nat) (b : string) :
  forRangeFrom i xs (fun _ x b => WriteString b (g x)) b = b +:+ concatS (map g xs).
Proof.
  revert i b. induction xs as [|x xs IH]; intros i b; cbn [forRangeFrom map concatS].
  - symmetry. apply app_nil_r_s.
  - rewrite IH. unfold WriteString. apply app_assoc_s.
Qed.

Lemma forRange_write (g : A → string) (xs : list A) (b : string) :
  forRange xs (fun _ x b => WriteString b (g x)) b = b +:+ concatS (map g xs).
Proof. apply forRangeFrom_write. Qed.

End FillFacts.

(* ===================================================================== *)
(** * CSV *)
(* ===================================================================== *)

Lemma ContainsAny_needsQuoting (c : string) :
  strings.ContainsAny c (DQ +:+ "," +:+ LF) = Spec.needsQuoting c.
Proof.
  unfold Spec.needsQuoting.
  induction c as [|a c IH]; [reflexivity |].
  cbn [strings.ContainsAny list_ascii_of_string existsb]. rewrite IH. f_equal.
  unfold Spec.isSpecial. change (DQ +:+ "," +:+ LF)
    with (String "034"%char (String ","%char (String "010"%char EmptyString))).
  cbn [strings.hasByte].
  destruct (Ascii.eqb a "034"), (Ascii.eqb a ","), (Ascii.eqb a "010"); reflexivity.
Qed.

Lemma ReplaceAll_doubleQuotes (c : string) :
  strings.ReplaceAllByte c "034"%char (DQ +:+ DQ) = Spec.doubleQuotes c.
Proof.
  unfold Spec.doubleQuotes.
  induction c as [|a c IH]; [reflexivity |].
  cbn [strings.ReplaceAllByte list_ascii_of_string flat_map]. rewrite IH.
  destruct (Ascii.eqb a "034"); reflexivity.
Qed.

Lemma csvRow_spec (cols : list string) :
  csvRow cols = strings.Join (map Spec.csvField cols) ",".
Proof.
  unfold csvRow. cbv zeta. f_equal.
  rewrite (forRange_ext _ (fun i c acc => <[i:=Spec.csvField c]> acc)).
  - apply forRange_fill.
  - intros i c acc. unfold Spec.csvField.
    rewrite ContainsAny_needsQuoting, ReplaceAll_doubleQuotes. reflexivity.
Qed.

Lemma renderCSV_spec (o : Options) (rows : list (list string)) :
  renderCSV o rows = (Spec.csvDocument o rows, None).
Proof.
  unfold renderCSV, Spec.csvDocument. cbv zeta. f_equal.
  rewrite (forRange_ext _ (fun _ r b =>
             WriteString b (Spec.csvLine (map (Spec.normalize o) r)))).
  - rewrite forRange_write. f_equal.
    destruct (Headers o) as [|h hs] eqn:E; [reflexivity |].
    rewrite <- E.
    replace (len (Headers o) >? 0) with true
      by (symmetry; rewrite Z.gtb_ltb; apply Z.ltb_lt, len_pos_iff; rewrite E; discriminate).
    unfold WriteString, Spec.csvLine. rewrite app_nil_l_s, csvRow_spec. reflexivity.
  - intros _ r b. rewrite forRange_fill, csvRow_spec.
    rewrite (map_ext (fun v => applyCellOpts v o) (Spec.normalize o))
      by (intros v; apply applyCellOpts_normalize).
    unfold WriteString, Spec.csvLine. apply app_assoc_s.
Qed.

(** C9. CSV: the header line is written exactly when there are headers;
    every data row is the line of its normalized cells (placeholder
    substitution, then truncation, in the words of the specification:
    [Spec.normalize]), not padded, joined with commas, a cell holding a
    comma, a double quote or a line feed being wrapped in double quotes
    with its double quotes doubled; every line ends with a line feed.  The
    scenario of the specification renders as stated; and with a
    placeholder and a limit of six code points, an empty cell is written
    as the placeholder, a long cell is cut to three code points and three
    dots, and a cell with a comma is quoted. *)
Theorem render_CSV (o : Options) (rows : list (list string)) :
  (Format_ o = FormatCSV → render o rows = (Spec.csvDocument o rows, None)) ∧
  render (WithFormat (WithHeaders DefaultOptions ["ID"; "Status"]) FormatCSV)
         [["1"; "active"]; ["2"; "pending"]]
  = ("ID,Status" +:+ LF +:+ "1,active" +:+ LF +:+ "2,pending" +:+ LF, None) ∧
  render (WithNullPlaceholder
            (WithMaxColumnWidth
               (WithFormat (WithHeaders DefaultOptions ["ID"; "Status"]) FormatCSV) 6) "N/A")
         [["1"; EmptyString]; ["2"; "a,b"]; ["3"; "pending now"]]
  = ("ID,Status" +:+ LF +:+ "1,N/A" +:+ LF +:+
     "2," +:+ DQ +:+ "a,b" +:+ DQ +:+ LF +:+ "3,pen..." +:+ LF, None).
Proof.
  split; [| split; vm_compute; reflexivity].
  intros Hf. unfold render. rewrite Hf. cbn [Z.eqb FormatCSV FormatMarkdown Pos.eqb].
  apply renderCSV_spec.
Qed.

(* ===================================================================== *)
(** * JSON *)
(* ===================================================================== *)

Lemma forRangeFrom_snoc {A B : Type} (f : A → B) (xs : list A) (i : nat) (acc : list B) :
  forRangeFrom i xs (fun _ x acc => acc ++ [f x]) acc = acc ++ map f xs.
Proof.
  revert i acc. induction xs as [|x xs IH]; intros i acc; cbn [forRangeFrom map].
  - symmetry. apply app_nil_r.
  - rewrite IH, <- app_assoc. reflexivity.
Qed.

Lemma jsonResult_map (o : Options) (rows : list (list string)) :
  jsonResult o rows = map (jsonObject o) rows.
Proof. unfold jsonResult, forRange. apply (forRangeFrom_snoc (jsonObject o)). Qed.

Lemma dom_forRangeFrom_insert (g : nat → string) (hs : list string) (i : nat)
    (m : gmap string string) :
  dom (forRangeFrom i hs (fun i h obj => <[h:=g i]> obj) m) = dom m ∪ list_to_set hs.
Proof.
  revert i m. induction hs as [|h hs IH]; intros i m; cbn [forRangeFrom list_to_set].
  - symmetry. apply union_empty_r_L.
  - rewrite IH, dom_insert_L, (comm_L (∪) {[h]} (dom m)), <- (assoc_L (∪)). reflexivity.
Qed.

Lemma dom_jsonObject (o : Options) (r : list string) :
  dom (jsonObject o r) = list_to_set (Headers o).
Proof.
  unfold jsonObject, forRange.
  rewrite dom_forRangeFrom_insert, dom_empty_L. apply union_empty_l_L.
Qed.

#[local] Instance keyLe_trans : Transitive json.keyLe.
Proof. intros x y z. unfold json.keyLe. apply (transitivity (R := String.le)). Qed.

#[local] Instance keyLe_total : Total json.keyLe.
Proof. intros x y. unfold json.keyLe. apply (total String.le). Qed.

(** The keys of an object as the encoder writes them: ascending, each
    once, and exactly the keys of the map. *)
Lemma mapFields_keys (m : gmap string string) :
  StronglySorted String.le (map fst (json.mapFields m)) ∧
  NoDup (map fst (json.mapFields m)) ∧
  (∀ k, k ∈ map fst (json.mapFields m) ↔ k ∈ dom m).
Proof.
  unfold json.mapFields.
  pose proof (merge_sort_Permutation json.keyLe (map_to_list m)) as Hp.
  split; [| split].
  - apply (StronglySorted_fmap fst json.keyLe String.le); [auto |].
    apply StronglySorted_merge_sort; apply _.
  - change (NoDup (merge_sort json.keyLe (map_to_list m)).*1).
    rewrite Hp. apply NoDup_fst_map_to_list.
  - intros k. change (k ∈ (merge_sort json.keyLe (map_to_list m)).*1 ↔ k ∈ dom m).
    rewrite Hp, elem_of_dom. rewrite list_elem_of_fmap. split.
    + intros [[k' v] [-> Hin]]. apply elem_of_map_to_list in Hin. eauto.
    + intros [v Hv]. exists (k, v). split; [reflexivity |].
      apply elem_of_map_to_list, Hv.
Qed.

Lemma jsonObjects_keys (o : Options) (rows : list (list string)) :
  Forall (fun fields =>
            StronglySorted String.le (map fst fields) ∧
            NoDup (map fst fields) ∧
            (∀ k, k ∈ map fst fields ↔ k ∈ Headers o))
         (jsonObjects o rows).
Proof.
  unfold jsonObjects. rewrite jsonResult_map.
  apply Forall_forall. intros fields Hin.
  change (fields ∈ json.mapFields <$> (jsonObject o <$> rows)) in Hin.
  apply list_elem_of_fmap in Hin as [m [-> Hm]].
  apply list_elem_of_fmap in Hm as [r [-> _]].
  destruct (mapFields_keys (jsonObject o r)) as (Hs & Hn & Hk).
  split; [exact Hs |]. split; [exact Hn |].
  intros k. rewrite Hk, dom_jsonObject. apply elem_of_list_to_set.
Qed.

Lemma renderJSON_text (o : Options) (rows : list (list string)) :
  Headers o ≠ [] →
  renderJSON o rows = (json.indentArray (jsonObjects o rows) +:+ LF, None).
Proof.
  intros Hh. unfold renderJSON.
  destruct (Z.eqb_spec (len (Headers o)) 0) as [E | E];
    [apply len_zero_iff in E; contradiction | reflexivity].
Qed.

(** C1, as the code has it.  With the JSON format and at least one
    header, the output is the indented array of one object per input row,
    followed by a line feed; the keys of every object are the distinct
    header names in ascending byte order (the encoder sorts the keys of a
    map), so they are in header order exactly when the headers are
    ascending without repetition. *)
Theorem renderJSON_objects (o : Options) (rows : list (list string)) :
  Format_ o = FormatJSON → Headers o ≠ [] →
  render o rows = (json.indentArray (jsonObjects o rows) +:+ LF, None) ∧
  length (jsonObjects o rows) = length rows ∧
  Forall (fun fields =>
            StronglySorted String.le (map fst fields) ∧
            NoDup (map fst fields) ∧
            (∀ k, k ∈ map fst fields ↔ k ∈ Headers o) ∧
            (map fst fields = Headers o ↔
               StronglySorted String.le (Headers o) ∧ NoDup (Headers o)))
         (jsonObjects o rows).
Proof.
  intros Hf Hh. split; [| split].
  - unfold render. rewrite Hf. cbn [Z.eqb FormatJSON FormatMarkdown FormatCSV Pos.eqb].
    apply renderJSON_text, Hh.
  - unfold jsonObjects. rewrite jsonResult_map, !length_map. reflexivity.
  - eapply Forall_impl; [apply jsonObjects_keys |].
    intros fields (Hs & Hn & Hk). cbv beta.
    split; [exact Hs |]. split; [exact Hn |]. split; [exact Hk |]. split.
    + intros <-. split; assumption.
    + intros [Hs' Hn']. apply (StronglySorted_unique String.le); [exact Hs | exact Hs' |].
      apply NoDup_Permutation; assumption.
Qed.

Lemma renderJSON_objects_witness :
  Format_ (WithFormat (WithHeaders DefaultOptions ["Name"; "Age"]) FormatJSON) = FormatJSON ∧
  Headers (WithFormat (WithHeaders DefaultOptions ["Name"; "Age"]) FormatJSON) ≠ [] ∧
  length (jsonObjects (WithFormat (WithHeaders DefaultOptions ["Name"; "Age"]) FormatJSON)
                      [["Alice"; "30"]]) = 1%nat.
Proof.
  split; [reflexivity |]. split; [discriminate |].
  exact (proj1 (proj2 (renderJSON_objects
           (WithFormat (WithHeaders DefaultOptions ["Name"; "Age"]) FormatJSON)
           [["Alice"; "30"]] eq_refl ltac:(discriminate)))).
Defined.

(** C1, as stated, fails on the input of the package's own JSON test:
    the headers are Name, Age and the object lists Age before Name. *)
Lemma renderJSON_keys_not_in_header_order :
  render (WithFormat (WithHeaders DefaultOptions ["Name"; "Age"]) FormatJSON)
         [["Alice"; "30"]]
  = ("[" +:+ LF +:+
     "  {" +:+ LF +:+
     "    " +:+ DQ +:+ "Age" +:+ DQ +:+ ": " +:+ DQ +:+ "30" +:+ DQ +:+ "," +:+ LF +:+
     "    " +:+ DQ +:+ "Name" +:+ DQ +:+ ": " +:+ DQ +:+ "Alice" +:+ DQ +:+ LF +:+
     "  }" +:+ LF +:+
     "]" +:+ LF, None) ∧
  jsonObjects (WithFormat (WithHeaders DefaultOptions ["Name"; "Age"]) FormatJSON)
              [["Alice"; "30"]]
  = [[("Age", "30"); ("Name", "Alice")]] ∧
  ¬ keysFollowHeaders (WithFormat (WithHeaders DefaultOptions ["Name"; "Age"]) FormatJSON)
                      [["Alice"; "30"]].
Proof.
  split; [vm_compute; reflexivity |].
  assert (E : jsonObjects (WithFormat (WithHeaders DefaultOptions ["Name"; "Age"]) FormatJSON)
                          [["Alice"; "30"]]
              = [[("Age", "30"); ("Name", "Alice")]]) by (vm_compute; reflexivity).
  split; [exact E |].
  unfold keysFollowHeaders. rewrite E. intros H.
  apply Forall_inv in H. discriminate H.
Qed.

(* ===================================================================== *)
(** * Column widths *)
(* ===================================================================== *)

Section TabFacts.

Lemma tab_lookup (f : nat → Z) (n j : nat) :
  tab f n !! j = if (j <? n)%nat then Some (f j) else None.
Proof.
  unfold tab. change (map f (seq 0 n)) with (f <$> seq 0 n). rewrite list_lookup_fmap.
  destruct (Nat.ltb_spec j n) as [H | H].
  - rewrite lookup_seq_lt by exact H. reflexivity.
  - rewrite lookup_seq_ge by exact H. reflexivity.
Qed.

Lemma tab_length (f : nat → Z) (n : nat) : length (tab f n) = n.
Proof. unfold tab. rewrite length_map, length_seq. reflexivity. Qed.

Lemma tab_at (f : nat → Z) (n j : nat) :
  at_ (tab f n) j 0 = if (j <? n)%nat then f j else 0.
Proof.
  unfold at_. rewrite nth_lookup, tab_lookup. destruct (j <? n)%nat; reflexivity.
Qed.

Lemma tab_ext (f g : nat → Z) (n : nat) :
  (∀ j, (j < n)%nat → f j = g j) → tab f n = tab g n.
Proof.
  intros H. apply list_eq. intros j. rewrite !tab_lookup.
  destruct (Nat.ltb_spec j n) as [Hj | Hj]; [rewrite (H j Hj) |]; reflexivity.
Qed.

Lemma replicate_tab (n : nat) : replicate n 0 = tab (fun _ => 0) n.
Proof.
  apply list_eq. intros j. rewrite tab_lookup.
  destruct (Nat.ltb_spec j n) as [Hj | Hj].
  - apply lookup_replicate_2. exact Hj.
  - apply lookup_replicate_None. lia.
Qed.

Lemma insert_tab (f : nat → Z) (n i : nat) (w : Z) :
  <[i:=w]> (tab f n) = tab (fun j => if (j =? i)%nat then w else f j) n.
Proof.
  apply list_eq. intros j. rewrite list_lookup_insert, !tab_lookup, tab_length.
  destruct (Nat.eqb_spec j i) as [-> | Hne].
  - destruct (Nat.ltb_spec i n); case_decide; try reflexivity; lia.
  - case_decide; [lia | reflexivity].
Qed.

Lemma raise_tab (f : nat → Z) (n i : nat) (w : Z) :
  raise w i (tab f n) = tab (fun j => if (j =? i)%nat then Z.max w (f j) else f j) n.
Proof.
  unfold raise. rewrite tab_at, Z.gtb_ltb.
  destruct (Nat.ltb_spec i n) as [Hi | Hi].
  - destruct (Z.ltb_spec (f i) w) as [Hw | Hw].
    + rewrite insert_tab. apply tab_ext. intros j _.
      destruct (Nat.eqb_spec j i) as [-> | _]; [lia | reflexivity].
    + apply tab_ext. intros j _.
      destruct (Nat.eqb_spec j i) as [-> | _]; [lia | reflexivity].
  - destruct (0 <? w); [rewrite insert_tab |]; apply tab_ext; intros j Hj;
      destruct (Nat.eqb_spec j i); try reflexivity; lia.
Qed.

Lemma lower_tab (f : nat → Z) (n i : nat) (m : Z) :
  lower m i (tab f n) = tab (fun j => if (j =? i)%nat then Z.min (f j) m else f j) n.
Proof.
  unfold lower. rewrite tab_at, Z.gtb_ltb.
  destruct (Nat.ltb_spec i n) as [Hi | Hi].
  - destruct (Z.ltb_spec m (f i)) as [Hw | Hw].
    + rewrite insert_tab. apply tab_ext. intros j _.
      destruct (Nat.eqb_spec j i) as [-> | _]; [lia | reflexivity].
    + apply tab_ext. intros j _.
      destruct (Nat.eqb_spec j i) as [-> | _]; [lia | reflexivity].
  - destruct (m <? 0); [rewrite insert_tab |]; apply tab_ext; intros j Hj;
      destruct (Nat.eqb_spec j i); try reflexivity; lia.
Qed.

End TabFacts.

Section WidthLoops.
Variable g : string → Z.

(** One pass over the cells [xs], whose first cell has index [i0]. *)
Lemma forRangeFrom_raise (xs : list string) (i0 n : nat) (f : nat → Z) :
  forRangeFrom i0 xs (fun i x ws => raise (g x) i ws) (tab f n)
  = tab (fun j => if (i0 <=? j)%nat then Spec.measure g xs (j - i0) (f j) else f j) n.
Proof.
  revert i0 f. induction xs as [|x xs IH]; intros i0 f; cbn [forRangeFrom].
  - apply tab_ext. intros j _. unfold Spec.measure. rewrite lookup_nil.
    destruct (i0 <=? j)%nat; reflexivity.
  - rewrite raise_tab, IH. apply tab_ext. intros j _. unfold Spec.measure.
    destruct (Nat.leb_spec (S i0) j) as [H1 | H1].
    + destruct (Nat.leb_spec i0 j) as [_ | H2]; [| lia].
      destruct (Nat.eqb_spec j i0) as [-> | _]; [lia |].
      replace (j - i0)%nat with (S (j - S i0)) by lia. reflexivity.
    + destruct (Nat.eqb_spec j i0) as [-> | Hne].
      * rewrite Nat.leb_refl, Nat.sub_diag. reflexivity.
      * destruct (Nat.leb_spec i0 j); [lia | reflexivity].
Qed.

Lemma forRange_raise (xs : list string) (n : nat) (f : nat → Z) :
  forRangeFrom 0 xs (fun i x ws => raise (g x) i ws) (tab f n)
  = tab (fun j => Spec.measure g xs j (f j)) n.
Proof.
  rewrite forRangeFrom_raise. apply tab_ext. intros j _.
  cbn [Nat.leb]. rewrite Nat.sub_0_r. reflexivity.
Qed.

(** The pass over all the rows. *)
Lemma forRangeFrom_rows_raise (rows : list (list string)) (k n : nat) (f : nat → Z) :
  forRangeFrom k rows (fun _ r ws => forRangeFrom 0 r (fun i x ws => raise (g x) i ws) ws)
               (tab f n)
  = tab (fun j => fold_left (fun acc r => Spec.measure g r j acc) rows (f j)) n.
Proof.
  revert k f. induction rows as [|r rows IH]; intros k f; cbn [forRangeFrom fold_left].
  - reflexivity.
  - rewrite forRange_raise, IH. reflexivity.
Qed.

End WidthLoops.

Lemma forRangeFrom_lower (m : Z) (xs : list Z) (i0 n : nat) (f : nat → Z) :
  forRangeFrom i0 xs (fun i _ ws => lower m i ws) (tab f n)
  = tab (fun j => if (i0 <=? j)%nat && (j <? i0 + length xs)%nat then Z.min (f j) m else f j) n.
Proof.
  revert i0 f. induction xs as [|x xs IH]; intros i0 f; cbn [forRangeFrom length].
  - apply tab_ext. intros j _.
    destruct (Nat.leb_spec i0 j), (Nat.ltb_spec j (i0 + 0)); try reflexivity; lia.
  - rewrite lower_tab, IH. apply tab_ext. intros j _.
    destruct (Nat.leb_spec (S i0) j), (Nat.ltb_spec j (S i0 + length xs)),
             (Nat.leb_spec i0 j), (Nat.ltb_spec j (i0 + S (length xs))),
             (Nat.eqb_spec j i0); cbn [andb]; try reflexivity; lia.
Qed.

Lemma numCols_loop (o : Options) (rows : list (list string)) :
  forRange rows (fun _ r numCols => if (numCols <? length r)%nat then length r else numCols)
           (length (Headers o))
  = Spec.numCols o rows.
Proof.
  unfold Spec.numCols, forRange. generalize (length (Headers o)) as n. generalize 0%nat as k.
  induction rows as [|r rows IH]; intros k n; cbn [forRangeFrom fold_left]; [reflexivity |].
  rewrite IH. f_equal. destruct (Nat.ltb_spec n (length r)); lia.
Qed.

(** [colWidths] computes the widths of the specification. *)
Lemma colWidths_spec (o : Options) (rows : list (list string)) :
  colWidths o rows = Spec.colWidths o rows.
Proof.
  unfold colWidths. cbv zeta. rewrite numCols_loop, replicate_tab. unfold forRange.
  change (fun (i : nat) (h : string) (widths : list Z) =>
            if utf8.RuneCountInString h >? at_ widths i 0
            then <[i:=utf8.RuneCountInString h]> widths else widths)
    with (fun (i : nat) (h : string) (widths : list Z) =>
            raise (utf8.RuneCountInString h) i widths).
  rewrite forRange_raise.
  change (fun (i : nat) (c : string) (widths0 : list Z) =>
            if utf8.RuneCountInString (applyCellOpts c o) >? at_ widths0 i 0
            then <[i:=utf8.RuneCountInString (applyCellOpts c o)]> widths0 else widths0)
    with (fun (i : nat) (c : string) (widths0 : list Z) =>
            raise ((fun c => utf8.RuneCountInString (applyCellOpts c o)) c) i widths0).
  rewrite (forRangeFrom_rows_raise (fun c => utf8.RuneCountInString (applyCellOpts c o))).
  unfold Spec.colWidths, Spec.colWidth, Spec.ceiling.
  destruct (MaxColumnWidth o >? 0).
  - change (fun (i : nat) (_ : Z) (widths : list Z) =>
              if at_ widths i 0 >? MaxColumnWidth o then <[i:=MaxColumnWidth o]> widths
              else widths)
      with (fun (i : nat) (_ : Z) (widths : list Z) => lower (MaxColumnWidth o) i widths).
    rewrite forRangeFrom_lower, tab_length. apply tab_ext. intros j Hj.
    cbn [Nat.leb andb Nat.add]. rewrite (proj2 (Nat.ltb_lt _ _) Hj). reflexivity.
  - reflexivity.
Qed.

(* ===================================================================== *)
(** * What the widths guarantee *)
(* ===================================================================== *)

Lemma colWidths_length (o : Options) (rows : list (list string)) :
  length (colWidths o rows) = Spec.numCols o rows.
Proof. rewrite colWidths_spec. apply tab_length. Qed.

Lemma colWidths_at (o : Options) (rows : list (list string)) (i : nat) :
  (i < Spec.numCols o rows)%nat → at_ (colWidths o rows) i 0 = Spec.colWidth o rows i.
Proof.
  intros Hi. rewrite colWidths_spec. unfold Spec.colWidths.
  change (map (Spec.colWidth o rows) (seq 0 (Spec.numCols o rows)))
    with (tab (Spec.colWidth o rows) (Spec.numCols o rows)).
  rewrite tab_at, (proj2 (Nat.ltb_lt _ _) Hi). reflexivity.
Qed.

Lemma numCols_ge_acc (rows : list (list string)) (n : nat) :
  (n <= fold_left (fun n r => Nat.max n (length r)) rows n)%nat.
Proof.
  revert n. induction rows as [|r rows IH]; intros n; cbn [fold_left]; [lia |].
  specialize (IH (Nat.max n (length r))). lia.
Qed.

Lemma numCols_headers (o : Options) (rows : list (list string)) :
  (length (Headers o) <= Spec.numCols o rows)%nat.
Proof. apply numCols_ge_acc. Qed.

Lemma numCols_row (o : Options) (rows : list (list string)) (r : list string) :
  r ∈ rows → (length r <= Spec.numCols o rows)%nat.
Proof.
  unfold Spec.numCols. generalize (length (Headers o)) as n.
  induction rows as [|r' rows IH]; intros n Hin; [inversion Hin |].
  cbn [fold_left]. apply elem_of_cons in Hin as [-> | Hin].
  - pose proof (numCols_ge_acc rows (Nat.max n (length r'))). lia.
  - apply IH, Hin.
Qed.

Section MeasureFacts.
Variable g : string → Z.
Variable i : nat.

Lemma measure_ge_acc (r : list string) (acc : Z) : acc <= Spec.measure g r i acc.
Proof. unfold Spec.measure. destruct (r !! i); lia. Qed.

Lemma measure_ge_cell (r : list string) (c : string) (acc : Z) :
  r !! i = Some c → g c <= Spec.measure g r i acc.
Proof. intros E. unfold Spec.measure. rewrite E. lia. Qed.

Lemma measure_max (r : list string) (a b : Z) :
  Spec.measure g r i (Z.max a b) = Z.max a (Spec.measure g r i b).
Proof. unfold Spec.measure. destruct (r !! i); lia. Qed.

Lemma fold_measure_ge_acc (rows : list (list string)) (acc : Z) :
  acc <= fold_left (fun acc r => Spec.measure g r i acc) rows acc.
Proof.
  revert acc. induction rows as [|r rows IH]; intros acc; cbn [fold_left]; [lia |].
  pose proof (measure_ge_acc r acc). specialize (IH (Spec.measure g r i acc)). lia.
Qed.

Lemma fold_measure_ge_cell (rows : list (list string)) (r : list string) (c : string)
    (acc : Z) :
  r ∈ rows → r !! i = Some c →
  g c <= fold_left (fun acc r => Spec.measure g r i acc) rows acc.
Proof.
  revert acc. induction rows as [|r' rows IH]; intros acc Hin E; [inversion Hin |].
  cbn [fold_left]. apply elem_of_cons in Hin as [-> | Hin].
  - pose proof (measure_ge_cell r' c acc E).
    pose proof (fold_measure_ge_acc rows (Spec.measure g r' i acc)). lia.
  - apply IH; assumption.
Qed.

Lemma fold_measure_max (rows : list (list string)) (a b : Z) :
  fold_left (fun acc r => Spec.measure g r i acc) rows (Z.max a b)
  = Z.max a (fold_left (fun acc r => Spec.measure g r i acc) rows b).
Proof.
  revert b. induction rows as [|r rows IH]; intros b; cbn [fold_left]; [reflexivity |].
  rewrite measure_max. apply IH.
Qed.

End MeasureFacts.

Lemma rawWidth_nonneg (o : Options) (rows : list (list string)) (i : nat) :
  0 <= Spec.rawWidth o rows i.
Proof.
  unfold Spec.rawWidth.
  pose proof (measure_ge_acc RuneCountInString i (Headers o) 0).
  pose proof (fold_measure_ge_acc (fun c => RuneCountInString (applyCellOpts c o)) i rows
                (Spec.measure RuneCountInString (Headers o) i 0)).
  lia.
Qed.

(** No width is negative, so no [strings.Repeat] of a border or a
    separator gets a negative count. *)
Lemma colWidths_nonneg (o : Options) (rows : list (list string)) :
  Forall (fun w => 0 <= w) (colWidths o rows).
Proof.
  rewrite colWidths_spec. unfold Spec.colWidths. apply Forall_forall. intros w Hw.
  change (w ∈ Spec.colWidth o rows <$> seq 0 (Spec.numCols o rows)) in Hw.
  apply list_elem_of_fmap in Hw as [i [-> _]].
  unfold Spec.colWidth, Spec.ceiling. pose proof (rawWidth_nonneg o rows i).
  rewrite Z.gtb_ltb. destruct (Z.ltb_spec 0 (MaxColumnWidth o)); lia.
Qed.

(** The code-point length of a normalized cell. *)
Lemma applyCellOpts_count (v : string) (o : Options) :
  RuneCountInString (applyCellOpts v o)
  = if (MaxColumnWidth o >? 0) && (RuneCountInString (substitute v o) >? MaxColumnWidth o)
    then MaxColumnWidth o else RuneCountInString (substitute v o).
Proof.
  rewrite applyCellOpts_substitute. cbv zeta. rewrite !Z.gtb_ltb.
  destruct (Z.ltb_spec 0 (MaxColumnWidth o)) as [H0 | H0]; cbn [andb]; [| reflexivity].
  destruct (Z.ltb_spec (MaxColumnWidth o) (RuneCountInString (substitute v o))) as [H1 | H1];
    [| reflexivity].
  destruct (Z.ltb_spec 3 (MaxColumnWidth o)) as [H3 | H3].
  - rewrite RuneCount_take; [| reflexivity | lia].
    change (RuneCountInString "...") with 3. lia.
  - rewrite <- (app_nil_r_s (stringOfRunes _)), RuneCount_take; [| exact I | lia].
    change (RuneCountInString EmptyString) with 0. lia.
Qed.

Lemma applyCellOpts_ceiling (v : string) (o : Options) :
  RuneCountInString (applyCellOpts v o)
  = Spec.ceiling o (RuneCountInString (substitute v o)).
Proof.
  rewrite applyCellOpts_count. unfold Spec.ceiling. rewrite !Z.gtb_ltb.
  destruct (Z.ltb_spec 0 (MaxColumnWidth o)); cbn [andb]; [| reflexivity].
  destruct (Z.ltb_spec (MaxColumnWidth o) (RuneCountInString (substitute v o))); lia.
Qed.

Lemma ceiling_mono (o : Options) (a b : Z) : a <= b → Spec.ceiling o a <= Spec.ceiling o b.
Proof. unfold Spec.ceiling. destruct (MaxColumnWidth o >? 0); lia. Qed.

Lemma ceiling_idem (o : Options) (a : Z) : Spec.ceiling o (Spec.ceiling o a) = Spec.ceiling o a.
Proof. unfold Spec.ceiling. destruct (MaxColumnWidth o >? 0); lia. Qed.

(** A cell that a row holds fits the width of its column. *)
Lemma cell_fits (o : Options) (rows : list (list string)) (r : list string) (i : nat)
    (c : string) :
  r ∈ rows → r !! i = Some c →
  RuneCountInString (applyCellOpts c o) <= at_ (colWidths o rows) i 0.
Proof.
  intros Hr Hc.
  assert (Hi : (i < Spec.numCols o rows)%nat).
  { pose proof (numCols_row o rows r Hr). apply lookup_lt_Some in Hc. lia. }
  rewrite colWidths_at by exact Hi. unfold Spec.colWidth.
  rewrite applyCellOpts_ceiling, <- ceiling_idem, <- applyCellOpts_ceiling.
  apply ceiling_mono. unfold Spec.rawWidth.
  apply (fold_measure_ge_cell (fun c => RuneCountInString (applyCellOpts c o)) i rows r c);
    assumption.
Qed.

(* ===================================================================== *)
(** * alignCell *)
(* ===================================================================== *)

(** A cell no wider than the target comes out exactly as wide as the
    target, whatever the alignment. *)
Lemma alignCell_width (s : string) (width : Z) (align : Alignment) :
  RuneCountInString s <= width →
  RuneCountInString (alignCell s width align) = width.
Proof.
  intros Hle. unfold alignCell. cbv zeta.
  destruct (Z.leb_spec (width - RuneCountInString s) 0) as [Hp | Hp]; [lia |].
  destruct (align =? AlignRight).
  - rewrite RuneCount_Repeat_space_l. lia.
  - destruct (align =? AlignCenter).
    + rewrite RuneCount_Repeat_space_l, RuneCount_Repeat_space_r.
      rewrite Z.quot_div_nonneg by lia.
      pose proof (Z.div_mod (width - RuneCountInString s) 2 ltac:(lia)).
      pose proof (Z.mod_pos_bound (width - RuneCountInString s) 2 ltac:(lia)). lia.
    + rewrite RuneCount_Repeat_space_r. lia.
Qed.

(** No padding when the cell already meets or exceeds the target. *)
Lemma alignCell_no_padding (s : string) (width : Z) (align : Alignment) :
  width <= RuneCountInString s → alignCell s width align = s.
Proof.
  intros Hle. unfold alignCell. cbv zeta.
  rewrite (proj2 (Z.leb_le _ _)) by lia. reflexivity.
Qed.

(** Center: the floor of half the deficit on the left, the rest on the
    right, so that an odd deficit puts the extra space on the right. *)
Lemma alignCell_center (s : string) (width : Z) :
  let deficit := width - RuneCountInString s in
  0 < deficit →
  alignCell s width AlignCenter
  = strings.Repeat " " (deficit / 2) +:+ s +:+ strings.Repeat " " (deficit - deficit / 2)
  ∧ 0 <= deficit / 2 <= deficit - deficit / 2
  ∧ deficit - deficit / 2 <= deficit / 2 + 1.
Proof.
  intros deficit Hd. unfold alignCell. cbv zeta. fold deficit.
  rewrite (proj2 (Z.leb_gt _ _)) by lia.
  change (AlignCenter =? AlignRight) with false. change (AlignCenter =? AlignCenter) with true.
  cbv iota. rewrite Z.quot_div_nonneg by lia. split; [reflexivity |].
  pose proof (Z.div_mod deficit 2 ltac:(lia)).
  pose proof (Z.mod_pos_bound deficit 2 ltac:(lia)). lia.
Qed.

Lemma alignCell_left (s : string) (width : Z) :
  0 < width - RuneCountInString s →
  alignCell s width AlignLeft = s +:+ strings.Repeat " " (width - RuneCountInString s).
Proof.
  intros Hd. unfold alignCell. cbv zeta. rewrite (proj2 (Z.leb_gt _ _)) by lia. reflexivity.
Qed.

Lemma alignCell_right (s : string) (width : Z) :
  0 < width - RuneCountInString s →
  alignCell s width AlignRight = strings.Repeat " " (width - RuneCountInString s) +:+ s.
Proof.
  intros Hd. unfold alignCell. cbv zeta. rewrite (proj2 (Z.leb_gt _ _)) by lia. reflexivity.
Qed.

(** Every cell that a row holds is rendered, in Plain, Markdown and
    Simple, as wide as its column. *)
Lemma held_cell_padded (o : Options) (rows : list (list string)) (r : list string)
    (i : nat) (c : string) :
  r ∈ rows → r !! i = Some c →
  RuneCountInString
    (alignCell (applyCellOpts c o) (at_ (colWidths o rows) i 0) (getAlign o i))
  = at_ (colWidths o rows) i 0.
Proof. intros Hr Hc. apply alignCell_width. eapply cell_fits; eassumption. Qed.

(** C6, where the code departs.  With headers A, B, the placeholder N/A
    and the one row x, both columns get the width 1; the cell that the row
    lacks in column B is rendered as N/A, three code points wide, without
    padding, so the row is wider than the borders. *)
Lemma missing_cell_wider_than_column :
  colWidths (WithNullPlaceholder (WithHeaders DefaultOptions ["A"; "B"]) "N/A") [["x"]]
  = [1; 1] ∧
  alignCell (applyCellOpts EmptyString
               (WithNullPlaceholder (WithHeaders DefaultOptions ["A"; "B"]) "N/A"))
            1
            (getAlign (WithNullPlaceholder (WithHeaders DefaultOptions ["A"; "B"]) "N/A") 1)
  = "N/A" ∧
  RuneCountInString "N/A" = 3 ∧
  render (WithNullPlaceholder (WithHeaders DefaultOptions ["A"; "B"]) "N/A") [["x"]]
  = ("┌───┬───┐" +:+ LF +:+
     "│ A │ B │" +:+ LF +:+
     "├───┼───┤" +:+ LF +:+
     "│ x │ N/A │" +:+ LF +:+
     "└───┴───┘" +:+ LF, None).
Proof. repeat split; vm_compute; reflexivity. Qed.

(* ===================================================================== *)
(** * The fixed-width formats, line by line *)
(* ===================================================================== *)

Lemma concatS_app (l1 l2 : list string) : concatS (l1 ++ l2) = concatS l1 +:+ concatS l2.
Proof.
  induction l1 as [|s l1 IH]; [reflexivity |].
  cbn [app concatS]. rewrite IH, app_assoc_s. reflexivity.
Qed.

Lemma forLoop_write (g : nat → string) (lo hi : nat) (b : string) :
  forLoop lo hi (fun i b => WriteString b (g i)) b
  = b +:+ concatS (map g (seq lo (hi - lo))).
Proof.
  unfold forLoop. generalize (hi - lo)%nat as n. intros n. revert lo b.
  induction n as [|n IH]; intros lo b; cbn [seq fold_left map concatS].
  - symmetry. apply app_nil_r_s.
  - rewrite IH. unfold WriteString. apply app_assoc_s.
Qed.

Lemma forLoop_ext {St : Type} (body body' : nat → St → St) (lo hi : nat) (st : St) :
  (∀ i st, body i st = body' i st) → forLoop lo hi body st = forLoop lo hi body' st.
Proof.
  intros He. unfold forLoop. generalize (seq lo (hi - lo)) as l. intros l. revert st.
  induction l as [|i l IH]; intros st; cbn [fold_left]; [reflexivity |].
  rewrite He. apply IH.
Qed.

Lemma forRangeFrom_write_at {A : Type} (g : nat → A → string) (G : nat → string)
    (xs : list A) (i0 : nat) (b : string) :
  (∀ j x, xs !! j = Some x → g (i0 + j)%nat x = G (i0 + j)%nat) →
  forRangeFrom i0 xs (fun i x b => WriteString b (g i x)) b
  = b +:+ concatS (map G (seq i0 (length xs))).
Proof.
  revert i0 b. induction xs as [|x xs IH]; intros i0 b HG;
    cbn [forRangeFrom length seq map concatS].
  - symmetry. apply app_nil_r_s.
  - rewrite IH.
    + unfold WriteString. rewrite app_assoc_s.
      specialize (HG 0%nat x eq_refl). rewrite Nat.add_0_r in HG. rewrite HG. reflexivity.
    + intros j y Hy. specialize (HG (S j) y Hy).
      rewrite Nat.add_succ_r in HG. exact HG.
Qed.

Lemma cellAt_lookup (cells : list string) (i : nat) (c : string) :
  cells !! i = Some c → cellAt cells i = c.
Proof.
  intros E. unfold cellAt, at_. rewrite (proj2 (Nat.ltb_lt _ _) (lookup_lt_Some _ _ _ E)).
  rewrite nth_lookup, E. reflexivity.
Qed.

Lemma cellAt_missing (cells : list string) (i : nat) :
  (length cells <= i)%nat → cellAt cells i = EmptyString.
Proof. intros H. unfold cellAt. rewrite (proj2 (Nat.ltb_ge _ _) H). reflexivity. Qed.

Lemma len_eqb_zero {A : Type} (xs : list A) : (len xs =? 0) = match xs with [] => true | _ => false end.
Proof. destruct xs; reflexivity. Qed.

Lemma len_gtb_zero {A : Type} (xs : list A) : (len xs >? 0) = match xs with [] => false | _ => true end.
Proof. destruct xs; reflexivity. Qed.

(** Markdown: the header line and every data line are written by the
    same [mdLine]. *)
Lemma renderMarkdown_lines (o : Options) (rows : list (list string)) :
  renderMarkdown o rows =
  (match colWidths o rows with
   | [] => EmptyString
   | _ => mdLine o (colWidths o rows) (Headers o) +:+
          mdSeparator o (colWidths o rows) +:+
          concatS (map (mdLine o (colWidths o rows)) rows)
   end, None).
Proof.
  unfold renderMarkdown. cbv zeta. rewrite len_eqb_zero.
  destruct (colWidths o rows) as [|w0 ws] eqn:E; [reflexivity |]. rewrite <- E.
  set (widths := colWidths o rows). f_equal.
  rewrite (forRange_ext _ (fun _ r b => WriteString b (mdLine o widths r))).
  2:{ intros _ r b.
      rewrite (forLoop_write (fun i => " " +:+ renderedCell o widths r i +:+ " |")).
      unfold WriteString, mdLine. rewrite Nat.sub_0_r, !app_assoc_s. reflexivity. }
  rewrite forRange_write.
  unfold forRange.
  rewrite (forRangeFrom_ext _ (fun i w b => WriteString b (mdSepCell o i w))).
  2:{ intros i w b. unfold mdSepCell.
      destruct (getAlign o i =? AlignRight); [reflexivity |].
      destruct (getAlign o i =? AlignCenter); reflexivity. }
  rewrite (forRangeFrom_write_at (fun i w => mdSepCell o i w)
                                 (fun i => mdSepCell o i (at_ widths i 0))).
  2:{ intros j w Hw. unfold at_. rewrite nth_lookup. cbn [Nat.add]. rewrite Hw. reflexivity. }
  rewrite (forLoop_write (fun i => " " +:+ renderedCell o widths (Headers o) i +:+ " |")).
  unfold WriteString, mdLine, mdSeparator. rewrite Nat.sub_0_r, !app_assoc_s. reflexivity.
Qed.

(** Simple: the header line, when there are headers, and every data line
    are written by the same [simpleLine]. *)
Lemma renderSimple_lines (o : Options) (rows : list (list string)) :
  renderSimple o rows =
  (match colWidths o rows with
   | [] => EmptyString
   | _ => (match Headers o with
           | [] => EmptyString
           | _ => simpleLine o (colWidths o rows) (Headers o) +:+
                  simpleSeparator (colWidths o rows)
           end) +:+
          concatS (map (simpleLine o (colWidths o rows)) rows)
   end, None).
Proof.
  unfold renderSimple. cbv zeta. rewrite len_eqb_zero.
  destruct (colWidths o rows) as [|w0 ws] eqn:E; [reflexivity |]. rewrite <- E.
  set (widths := colWidths o rows). f_equal.
  rewrite (forRange_ext _ (fun _ r b => WriteString b (simpleLine o widths r))).
  2:{ intros _ r b.
      rewrite (forLoop_ext _ (fun i b => WriteString b (gap i +:+ renderedCell o widths r i))).
      2:{ intros i b'. unfold gap, WriteString.
          destruct (0 <? i)%nat; [apply app_assoc_s | reflexivity]. }
      rewrite forLoop_write.
      unfold WriteString, simpleLine. rewrite Nat.sub_0_r, !app_assoc_s. reflexivity. }
  rewrite forRange_write. f_equal.
  rewrite len_gtb_zero. destruct (Headers o) as [|h hs] eqn:Eh; [reflexivity |]. rewrite <- Eh.
  rewrite (forLoop_ext _ (fun i b =>
             WriteString b (gap i +:+ renderedCell o widths (Headers o) i))).
  2:{ intros i b'. unfold gap, WriteString.
      destruct (0 <? i)%nat; [apply app_assoc_s | reflexivity]. }
  rewrite forLoop_write. unfold forRange.
  rewrite (forRangeFrom_ext _ (fun i w b => WriteString b (gap i +:+ strings.Repeat "-" w))).
  2:{ intros i w b'. unfold gap, WriteString.
      destruct (0 <? i)%nat; [apply app_assoc_s | reflexivity]. }
  rewrite (forRangeFrom_write_at (fun i w => gap i +:+ strings.Repeat "-" w)
                                 (fun i => gap i +:+ strings.Repeat "-" (at_ widths i 0))).
  2:{ intros j w Hw. unfold at_. rewrite nth_lookup. cbn [Nat.add]. rewrite Hw. reflexivity. }
  unfold WriteString, simpleLine, simpleSeparator.
  rewrite Nat.sub_0_r, !app_assoc_s. reflexivity.
Qed.

(** Plain: every data line is written by [plainLine]; the header line
    normalizes and aligns the headers the same way and leaves the columns
    without a header blank. *)
Lemma renderPlain_lines (o : Options) (rows : list (list string)) :
  renderPlain o rows =
  (match colWidths o rows with
   | [] => EmptyString
   | _ => buildHorizontalBorder (colWidths o rows) "┌" "┬" "┐" "─" +:+
          (match Headers o with
           | [] => EmptyString
           | _ => plainHeaderLine o (colWidths o rows) +:+ LF +:+
                  buildHorizontalBorder (colWidths o rows) "├" "┼" "┤" "─"
           end) +:+
          concatS (map (plainLine o (colWidths o rows)) rows) +:+ LF +:+
          buildHorizontalBorder (colWidths o rows) "└" "┴" "┘" "─" +:+ LF
   end, None).
Proof.
  unfold renderPlain. cbv zeta. rewrite len_eqb_zero.
  destruct (colWidths o rows) as [|w0 ws] eqn:E; [reflexivity |]. rewrite <- E.
  set (widths := colWidths o rows). f_equal.
  rewrite (forRange_ext _ (fun _ r b => WriteString b (plainLine o widths r))).
  2:{ intros _ r b.
      rewrite (forLoop_write (fun i => " " +:+ renderedCell o widths r i +:+ " │")).
      unfold WriteString, plainLine. rewrite Nat.sub_0_r, !app_assoc_s. reflexivity. }
  rewrite forRange_write.
  rewrite len_gtb_zero. destruct (Headers o) as [|h hs] eqn:Eh.
  - unfold WriteString. rewrite !app_assoc_s. reflexivity.
  - rewrite <- Eh.
    rewrite (forLoop_write (fun i => " " +:+ strings.Repeat " " (at_ widths i 0) +:+ " │")).
    unfold forRange.
    rewrite (forRangeFrom_write_at
               (fun i h => " " +:+ alignCell (applyCellOpts h o) (at_ widths i 0) (getAlign o i)
                           +:+ " │")
               (fun i => " " +:+ renderedCell o widths (Headers o) i +:+ " │")).
    2:{ intros j x Hx. cbn [Nat.add]. unfold renderedCell.
        rewrite (cellAt_lookup _ _ _ Hx). reflexivity. }
    unfold WriteString, plainHeaderLine. rewrite !app_assoc_s. reflexivity.
Qed.

(* ===================================================================== *)
(** * JSON values *)
(* ===================================================================== *)

Lemma forRangeFrom_insert_other (g : nat → string) (hs : list string) (i : nat)
    (m : gmap string string) (k : string) :
  k ∉ hs → forRangeFrom i hs (fun i h obj => <[h:=g i]> obj) m !! k = m !! k.
Proof.
  revert i m. induction hs as [|h hs IH]; intros i m Hk; cbn [forRangeFrom]; [reflexivity |].
  apply not_elem_of_cons in Hk as [Hne Hk].
  rewrite IH by exact Hk. apply lookup_insert_ne. congruence.
Qed.

Lemma forRangeFrom_insert_lookup (g : nat → string) (hs : list string) (i j : nat)
    (m : gmap string string) (h : string) :
  hs !! j = Some h → (∀ j', (j < j')%nat → hs !! j' ≠ Some h) →
  forRangeFrom i hs (fun i h obj => <[h:=g i]> obj) m !! h = Some (g (i + j)%nat).
Proof.
  revert i j m. induction hs as [|h' hs IH]; intros i j m Hj Hlast; [discriminate |].
  cbn [forRangeFrom]. destruct j as [|j].
  - injection Hj as ->. rewrite forRangeFrom_insert_other.
    + rewrite lookup_insert_eq, Nat.add_0_r. reflexivity.
    + intros Hin. apply list_elem_of_lookup in Hin as [k Hk].
      apply (Hlast (S k)); [lia | exact Hk].
  - cbn in Hj. rewrite (IH (S i) j _ Hj).
    + f_equal. f_equal. lia.
    + intros j' Hlt. apply (Hlast (S j')). lia.
Qed.

(** The object of a row maps a header to the value of the last column
    that carries it: the normalized cell of that column when the row
    holds one, and the empty string, not normalized, when it does not. *)
Lemma jsonObject_lookup (o : Options) (r : list string) (i : nat) (h : string) :
  Headers o !! i = Some h → (∀ j, (i < j)%nat → Headers o !! j ≠ Some h) →
  jsonObject o r !! h = Some (jsonCell o r i) ∧
  (∀ c, r !! i = Some c → jsonCell o r i = applyCellOpts c o) ∧
  ((length r <= i)%nat → jsonCell o r i = EmptyString).
Proof.
  intros Hi Hlast. split; [| split].
  - unfold jsonObject, forRange.
    rewrite (forRangeFrom_insert_lookup (jsonCell o r) _ 0 i _ h Hi Hlast). reflexivity.
  - intros c Hc. unfold jsonCell, at_.
    rewrite (proj2 (Nat.ltb_lt _ _) (lookup_lt_Some _ _ _ Hc)), nth_lookup, Hc. reflexivity.
  - intros Hlen. unfold jsonCell. rewrite (proj2 (Nat.ltb_ge _ _) Hlen). reflexivity.
Qed.

(** C2, where the code departs.  With headers A, B, the placeholder N/A
    and the one row x, the JSON object gives B the empty string, although
    the normalization of an empty cell is N/A and Markdown, on the same
    input, writes N/A for the missing cell. *)
Lemma json_missing_cell_not_normalized :
  render (WithNullPlaceholder (WithFormat (WithHeaders DefaultOptions ["A"; "B"]) FormatJSON) "N/A")
         [["x"]]
  = ("[" +:+ LF +:+
     "  {" +:+ LF +:+
     "    " +:+ DQ +:+ "A" +:+ DQ +:+ ": " +:+ DQ +:+ "x" +:+ DQ +:+ "," +:+ LF +:+
     "    " +:+ DQ +:+ "B" +:+ DQ +:+ ": " +:+ DQ +:+ DQ +:+ LF +:+
     "  }" +:+ LF +:+
     "]" +:+ LF, None) ∧
  jsonObject
    (WithNullPlaceholder (WithFormat (WithHeaders DefaultOptions ["A"; "B"]) FormatJSON) "N/A")
    ["x"] !! "B"
  = Some EmptyString ∧
  applyCellOpts EmptyString
    (WithNullPlaceholder (WithFormat (WithHeaders DefaultOptions ["A"; "B"]) FormatJSON) "N/A")
  = "N/A" ∧
  render (WithNullPlaceholder (WithFormat (WithHeaders DefaultOptions ["A"; "B"]) FormatMarkdown)
                              "N/A")
         [["x"]]
  = ("| A | B |" +:+ LF +:+
     "| - | - |" +:+ LF +:+
     "| x | N/A |" +:+ LF, None).
Proof. repeat split; vm_compute; reflexivity. Qed.

(* ===================================================================== *)
(** * Where normalization is applied *)
(* ===================================================================== *)

Lemma substitute_id (h : string) (o : Options) :
  h ≠ EmptyString ∨ NullPlaceholder o = EmptyString → substitute h o = h.
Proof.
  intros [Hh | Hp]; unfold substitute.
  - rewrite (proj2 (String.eqb_neq _ _) Hh). reflexivity.
  - rewrite Hp, String.eqb_refl, andb_false_r. reflexivity.
Qed.

Lemma ceiling_max (o : Options) (a b y : Z) :
  Spec.ceiling o a = Spec.ceiling o b →
  Spec.ceiling o (Z.max a y) = Spec.ceiling o (Z.max b y).
Proof. unfold Spec.ceiling. destruct (MaxColumnWidth o >? 0); lia. Qed.

Lemma header_measure_ceiling (o : Options) (i : nat) :
  (∀ h, h ∈ Headers o → h ≠ EmptyString ∨ NullPlaceholder o = EmptyString) →
  Spec.ceiling o (Spec.measure RuneCountInString (Headers o) i 0)
  = Spec.ceiling o (Spec.measure (fun c => RuneCountInString (applyCellOpts c o))
                                 (Headers o) i 0).
Proof.
  intros Hh. unfold Spec.measure. destruct (Headers o !! i) as [h |] eqn:E; [| reflexivity].
  rewrite applyCellOpts_ceiling, substitute_id
    by (apply Hh; eapply list_elem_of_lookup_2; exact E).
  pose proof (RuneCount_nonneg h). unfold Spec.ceiling.
  destruct (MaxColumnWidth o >? 0) eqn:EM; [| reflexivity].
  rewrite Z.gtb_ltb in EM. apply Z.ltb_lt in EM. lia.
Qed.

Lemma headers_measured_normalized (o : Options) (rows : list (list string)) :
  (∀ h, h ∈ Headers o → h ≠ EmptyString ∨ NullPlaceholder o = EmptyString) →
  headersMeasuredNormalized o rows.
Proof.
  intros Hh. unfold headersMeasuredNormalized, headersAsRow. rewrite !colWidths_spec.
  unfold Spec.colWidths.
  replace (Spec.numCols (WithHeaders o []) (Headers o :: rows)) with (Spec.numCols o rows)
    by reflexivity.
  apply map_ext. intros i. unfold Spec.colWidth.
  change (Spec.ceiling (WithHeaders o [])) with (Spec.ceiling o).
  unfold Spec.rawWidth. cbn [fold_left Headers WithHeaders].
  change (fun c : string => RuneCountInString (applyCellOpts c (WithHeaders o [])))
    with (fun c : string => RuneCountInString (applyCellOpts c o)).
  set (g := fun c : string => RuneCountInString (applyCellOpts c o)).
  change (Spec.measure RuneCountInString [] i 0) with 0.
  pose proof (measure_ge_acc RuneCountInString i (Headers o) 0) as Ha.
  pose proof (measure_ge_acc g i (Headers o) 0) as Hb.
  rewrite <- (Z.max_l _ _ Ha), <- (Z.max_l (Spec.measure g (Headers o) i 0) _ Hb).
  rewrite !fold_measure_max. apply ceiling_max, header_measure_ceiling, Hh.
Qed.

Lemma fold_measure_ext (g g' : string → Z) (i : nat) (rows : list (list string)) (acc : Z) :
  (∀ c, g c = g' c) →
  fold_left (fun acc r => Spec.measure g r i acc) rows acc
  = fold_left (fun acc r => Spec.measure g' r i acc) rows acc.
Proof.
  intros Hg. revert acc. induction rows as [|r rows IH]; intros acc; [reflexivity |].
  cbn [fold_left]. rewrite IH. f_equal. unfold Spec.measure.
  destruct (r !! i) as [c |]; [rewrite Hg |]; reflexivity.
Qed.

(** Measuring the headers as one more row is measuring every cell,
    header or data, normalized. *)
Lemma colWidths_headersAsRow (o : Options) (rows : list (list string)) :
  colWidths (WithHeaders o []) (headersAsRow o rows) = Spec.normalizedWidths o rows.
Proof.
  unfold headersAsRow. rewrite colWidths_spec. unfold Spec.colWidths, Spec.normalizedWidths.
  replace (Spec.numCols (WithHeaders o []) (Headers o :: rows)) with (Spec.numCols o rows)
    by reflexivity.
  apply map_ext. intros i. unfold Spec.colWidth, Spec.normalizedWidth, Spec.rawWidth.
  change (Spec.ceiling (WithHeaders o [])) with (Spec.ceiling o). f_equal.
  change (Spec.measure RuneCountInString (Headers (WithHeaders o [])) i 0) with 0.
  apply fold_measure_ext. intros c.
  change (applyCellOpts c (WithHeaders o [])) with (applyCellOpts c o).
  rewrite applyCellOpts_normalize. reflexivity.
Qed.

(** C3, as stated, fails: CSV writes the header Description in full
    next to the data cell truncated to six code points, so the header
    line is not what a data row of the same cells would be. *)
Lemma headers_not_normalized :
  render (WithMaxColumnWidth (WithFormat (WithHeaders DefaultOptions ["Description"]) FormatCSV) 6)
         [["Description"]]
  = ("Description" +:+ LF +:+ "Des..." +:+ LF, None) ∧
  ¬ csvHeadersNormalized
      (WithMaxColumnWidth (WithFormat (WithHeaders DefaultOptions ["Description"]) FormatCSV) 6)
      [["Description"]].
Proof.
  split; [vm_compute; reflexivity |].
  unfold csvHeadersNormalized; vm_compute; discriminate.
Qed.

(** The slip of [colWidths] that C6 shows at a missing cell, seen at a
    header: an empty header is measured as it is configured and written
    as the placeholder, so the header line is wider than its column.  C3
    as the code has it, below, says nothing about this case. *)
Example empty_header_not_measured :
  colWidths (WithNullPlaceholder (WithHeaders DefaultOptions [EmptyString]) "N/A") [] = [0] ∧
  render (WithNullPlaceholder (WithHeaders DefaultOptions [EmptyString]) "N/A") []
  = ("┌──┐" +:+ LF +:+ "│ N/A │" +:+ LF +:+ "├──┤" +:+ LF +:+ "└──┘" +:+ LF, None).
Proof. split; vm_compute; reflexivity. Qed.

(** C3, as the code has it.  The normalization the code applies is the
    one of the specification.  CSV writes the header cells as configured
    and normalizes the data cells; Markdown, Simple and Plain write header
    cells and data cells through the same [renderedCell], which
    normalizes and then aligns; JSON keeps the headers as keys and stores
    the normalized cell for every cell a row holds.  When no header is
    empty or no placeholder is configured, [colWidths] measures the
    headers the way it measures a data row of the same cells, and the
    widths are the largest normalized code-point length among the header
    and the cells of each column, under the ceiling of maxColumnWidth.
    Nothing is said about the widths when an empty header meets a
    placeholder. *)
Theorem normalization_as_applied (o : Options) (rows : list (list string)) :
  (∀ v, applyCellOpts v o = Spec.normalize o v) ∧
  renderCSV o rows = (Spec.csvDocument o rows, None) ∧
  (∀ widths cells i,
     renderedCell o widths cells i
     = alignCell (Spec.normalize o (cellAt cells i)) (at_ widths i 0) (getAlign o i)) ∧
  renderMarkdown o rows =
    (match colWidths o rows with
     | [] => EmptyString
     | _ => mdLine o (colWidths o rows) (Headers o) +:+
            mdSeparator o (colWidths o rows) +:+
            concatS (map (mdLine o (colWidths o rows)) rows)
     end, None) ∧
  renderSimple o rows =
    (match colWidths o rows with
     | [] => EmptyString
     | _ => (match Headers o with
             | [] => EmptyString
             | _ => simpleLine o (colWidths o rows) (Headers o) +:+
                    simpleSeparator (colWidths o rows)
             end) +:+
            concatS (map (simpleLine o (colWidths o rows)) rows)
     end, None) ∧
  renderPlain o rows =
    (match colWidths o rows with
     | [] => EmptyString
     | _ => buildHorizontalBorder (colWidths o rows) "┌" "┬" "┐" "─" +:+
            (match Headers o with
             | [] => EmptyString
             | _ => plainHeaderLine o (colWidths o rows) +:+ LF +:+
                    buildHorizontalBorder (colWidths o rows) "├" "┼" "┤" "─"
             end) +:+
            concatS (map (plainLine o (colWidths o rows)) rows) +:+ LF +:+
            buildHorizontalBorder (colWidths o rows) "└" "┴" "┘" "─" +:+ LF
     end, None) ∧
  jsonObjects o rows = map (fun r => json.mapFields (jsonObject o r)) rows ∧
  (∀ r i h c,
     Headers o !! i = Some h → (∀ j, (i < j)%nat → Headers o !! j ≠ Some h) →
     r !! i = Some c → jsonObject o r !! h = Some (Spec.normalize o c)) ∧
  ((∀ h, h ∈ Headers o → h ≠ EmptyString ∨ NullPlaceholder o = EmptyString) →
   headersMeasuredNormalized o rows ∧
   colWidths o rows = Spec.normalizedWidths o rows).
Proof.
  split; [intros v; apply applyCellOpts_normalize |].
  split; [apply renderCSV_spec |].
  split; [intros widths cells i; unfold renderedCell;
          rewrite applyCellOpts_normalize; reflexivity |].
  split; [apply renderMarkdown_lines |].
  split; [apply renderSimple_lines |].
  split; [apply renderPlain_lines |].
  split; [unfold jsonObjects; rewrite jsonResult_map; apply map_map |].
  split.
  { intros r i h c Hi Hlast Hc.
    destruct (jsonObject_lookup o r i h Hi Hlast) as (-> & Hheld & _).
    rewrite (Hheld c Hc), applyCellOpts_normalize. reflexivity. }
  intros Hh. pose proof (headers_measured_normalized o rows Hh) as Hm.
  split; [exact Hm |].
  unfold headersMeasuredNormalized in Hm. rewrite Hm. apply colWidths_headersAsRow.
Qed.

Lemma normalization_as_applied_witness :
  colWidths (WithMaxColumnWidth (WithHeaders DefaultOptions ["Description"; "N"]) 6)
            [["a"; EmptyString; "long cell"]]
  = Spec.normalizedWidths (WithMaxColumnWidth (WithHeaders DefaultOptions ["Description"; "N"]) 6)
                          [["a"; EmptyString; "long cell"]].
Proof.
  apply (normalization_as_applied
           (WithMaxColumnWidth (WithHeaders DefaultOptions ["Description"; "N"]) 6)
           [["a"; EmptyString; "long cell"]]).
  intros h Hh. left. intros ->.
  apply elem_of_cons in Hh as [Hh | Hh]; [discriminate Hh |].
  apply elem_of_cons in Hh as [Hh | Hh]; [discriminate Hh |].
  inversion Hh.
Defined.

(* ===================================================================== *)
(** * The row store: bulk append, reset, rendering *)
(* ===================================================================== *)

Lemma AddRow_accepted (t : Table) (r : list string) :
  AddRow t r = if rowAccepted (opts t) r
               then ({| opts := opts t; rows := rows t ++ [r] |}, None)
               else (t, Some ErrColumnMismatch).
Proof.
  unfold AddRow, rowAccepted.
  destruct (StrictColumnCount (opts t) && (0 <? len (Headers (opts t)))); cbn [andb negb];
    [| reflexivity].
  destruct (negb (len r =? len (Headers (opts t)))); reflexivity.
Qed.

(** X1. [AddRows] appends the rows in order up to the first one that
    [AddRow] rejects and stops there: the rows before it stay in the
    table (no rollback), the rows after it are not looked at, and the
    error is [ErrColumnMismatch]; when every row is accepted all of them
    are appended and the error is nil.  The options never change. *)
Theorem AddRows_stops_at_first_mismatch (t : Table) (rs : list (list string)) :
  AddRows t rs =
  ({| opts := opts t; rows := rows t ++ acceptedPrefix (opts t) rs |},
   if forallb (rowAccepted (opts t)) rs then None else Some ErrColumnMismatch).
Proof.
  revert t. induction rs as [|r rs IH]; intros t.
  - cbn [AddRows acceptedPrefix forallb]. rewrite app_nil_r. destruct t; reflexivity.
  - cbn [AddRows acceptedPrefix forallb]. rewrite AddRow_accepted.
    destruct (rowAccepted (opts t) r) eqn:E; cbn [andb].
    + rewrite IH. cbn [opts rows]. rewrite <- app_assoc. reflexivity.
    + rewrite app_nil_r. destruct t; reflexivity.
Qed.

Lemma AddRows_success_rows (t : Table) (rs : list (list string)) :
  (AddRows t rs).2 = None →
  (AddRows t rs).1 = {| opts := opts t; rows := rows t ++ rs |}.
Proof.
  revert t. induction rs as [|r rs IH]; intros t.
  - intros _. cbn [AddRows fst]. rewrite app_nil_r. destruct t; reflexivity.
  - cbn [AddRows]. rewrite AddRow_accepted.
    destruct (rowAccepted (opts t) r); [| discriminate].
    intros H. rewrite (IH _ H). cbn [opts rows]. rewrite <- app_assoc. reflexivity.
Qed.

Lemma AddRows_not_strict (t : Table) (rs : list (list string)) :
  StrictColumnCount (opts t) = false ∨ Headers (opts t) = [] →
  (AddRows t rs).2 = None.
Proof.
  intros Hns. revert t Hns. induction rs as [|r rs IH]; intros t Hns; [reflexivity |].
  cbn [AddRows]. rewrite AddRow_accepted.
  assert (Ha : rowAccepted (opts t) r = true).
  { unfold rowAccepted. destruct Hns as [-> | ->]; [reflexivity |].
    destruct (StrictColumnCount (opts t)); reflexivity. }
  rewrite Ha. apply IH. exact Hns.
Qed.

(** X2. A table that was reset (which is the table [New] makes from the
    same options) and then filled by a successful [AddRows] holds exactly
    the rows given and renders exactly as the package-level [Render] does
    on the same options and rows. *)
Theorem builder_renders_as_Render (t : Table) (rs : list (list string)) :
  (AddRows (Reset t) rs).2 = None →
  RenderErr (AddRows (Reset t) rs).1 = Render (opts t) rs ∧
  RowCount (AddRows (Reset t) rs).1 = len rs ∧
  Reset t = New (opts t).
Proof.
  intros H. rewrite (AddRows_success_rows _ _ H). cbn [Reset opts rows app].
  unfold RenderErr, Render, RowCount. cbn [opts rows]. repeat split.
Qed.

Lemma builder_renders_as_Render_witness :
  (AddRows (Reset (New (WithFormat (WithHeaders DefaultOptions ["A"; "B"]) FormatMarkdown)))
           [["1"; "2"]; ["3"]]).2 = None ∧
  RenderErr (AddRows (Reset (New (WithFormat (WithHeaders DefaultOptions ["A"; "B"])
                                             FormatMarkdown)))
                     [["1"; "2"]; ["3"]]).1
  = Render (WithFormat (WithHeaders DefaultOptions ["A"; "B"]) FormatMarkdown)
           [["1"; "2"]; ["3"]].
Proof.
  split; [reflexivity |].
  exact (proj1 (builder_renders_as_Render
                  (New (WithFormat (WithHeaders DefaultOptions ["A"; "B"]) FormatMarkdown))
                  [["1"; "2"]; ["3"]] eq_refl)).
Defined.

(** Whenever [render] returns an error, the string it returns is empty. *)
Lemma render_error_empty (o : Options) (rows : list (list string)) :
  (render o rows).2 ≠ None → (render o rows).1 = EmptyString.
Proof.
  destruct (render_cases o rows) as [[_ ->] | [[_ ->] | [[_ ->] | [[_ ->] | [_ ->]]]]].
  - rewrite renderMarkdown_nil_error. congruence.
  - rewrite renderCSV_nil_error. congruence.
  - unfold renderJSON. destruct (len (Headers o) =? 0); [reflexivity |].
    cbv zeta. destruct (json.MarshalIndent _) as [d [e |]]; cbn [fst snd]; congruence.
  - rewrite renderSimple_nil_error. congruence.
  - rewrite renderPlain_nil_error. congruence.
Qed.

(** X3. The method [Render] of a table drops the error of [RenderErr]:
    whenever rendering fails it returns the empty string, never a text
    that describes the error; and rendering fails only with the JSON
    format and no headers. *)
Theorem Table_Render_swallows_error (t : Table) :
  (RenderErr t).2 ≠ None →
  Table_Render t = EmptyString ∧
  Format_ (opts t) = FormatJSON ∧ Headers (opts t) = [] ∧
  (RenderErr t).2 = Some ErrMissingHeaders.
Proof.
  intros H. split; [unfold Table_Render; apply render_error_empty; exact H |].
  unfold RenderErr in *.
  destruct (render_cases (opts t) (rows t))
    as [[_ E] | [[_ E] | [[Ef E] | [[_ E] | [_ E]]]]]; rewrite E in H |- *.
  - rewrite renderMarkdown_nil_error in H. congruence.
  - rewrite renderCSV_nil_error in H. congruence.
  - destruct (renderJSON_error (opts t) (rows t)) as [[Hn ->] | [Hn _]].
    + repeat split; assumption.
    + exfalso. apply H. rewrite (renderJSON_text _ _ Hn). reflexivity.
  - rewrite renderSimple_nil_error in H. congruence.
  - rewrite renderPlain_nil_error in H. congruence.
Qed.

Lemma Table_Render_swallows_error_witness :
  (RenderErr (New (WithFormat DefaultOptions FormatJSON))).2 ≠ None ∧
  Table_Render (New (WithFormat DefaultOptions FormatJSON)) = EmptyString.
Proof.
  split; [discriminate |].
  exact (proj1 (Table_Render_swallows_error (New (WithFormat DefaultOptions FormatJSON))
                  ltac:(discriminate))).
Defined.

(* ===================================================================== *)
(** * Normalization, once more *)
(* ===================================================================== *)

Lemma RuneCount_pos (s : string) : s ≠ EmptyString → 0 < RuneCountInString s.
Proof.
  destruct s as [|a s]; [congruence |]. intros _.
  unfold RuneCountInString. rewrite runes_cons. cbn [length]. lia.
Qed.

Lemma RuneCount_empty (s : string) : RuneCountInString s = 0 → s = EmptyString.
Proof.
  intros H. destruct s as [|a s]; [reflexivity |].
  pose proof (RuneCount_pos (String a s) ltac:(discriminate)). lia.
Qed.

Lemma substitute_nonempty (v : string) (o : Options) :
  NullPlaceholder o ≠ EmptyString → substitute v o ≠ EmptyString.
Proof.
  intros Hp. unfold substitute. destruct (String.eqb_spec v EmptyString) as [-> | Hv].
  - rewrite (proj2 (String.eqb_neq _ _) Hp). exact Hp.
  - exact Hv.
Qed.

Lemma applyCellOpts_substitute_id (v : string) (o : Options) :
  substitute (applyCellOpts v o) o = applyCellOpts v o.
Proof.
  destruct (String.eqb_spec (NullPlaceholder o) EmptyString) as [Hp | Hp];
    [apply substitute_id; right; exact Hp |].
  apply substitute_id. left. intros HT.
  pose proof (RuneCount_pos _ (substitute_nonempty v o Hp)) as Hs.
  pose proof (applyCellOpts_ceiling v o) as Hc. rewrite HT in Hc.
  change (RuneCountInString EmptyString) with 0 in Hc. unfold Spec.ceiling in Hc.
  rewrite Z.gtb_ltb in Hc. destruct (Z.ltb_spec 0 (MaxColumnWidth o)); lia.
Qed.

(** X4. Normalizing a cell twice is normalizing it once; with a positive
    limit no normalized cell has more code points than the limit; and
    truncation cuts between code points: the code points of a truncated
    cell are the first ones of the cell (followed by three dots when the
    limit exceeds 3), also when the cell is not valid UTF-8. *)
Theorem applyCellOpts_idempotent (v : string) (o : Options) :
  applyCellOpts (applyCellOpts v o) o = applyCellOpts v o ∧
  (0 < MaxColumnWidth o → RuneCountInString (applyCellOpts v o) <= MaxColumnWidth o) ∧
  (if (MaxColumnWidth o >? 0) && (RuneCountInString (substitute v o) >? MaxColumnWidth o)
   then runes (applyCellOpts v o)
        = if MaxColumnWidth o >? 3
          then take (Z.to_nat (MaxColumnWidth o - 3)) (runes (substitute v o)) ++ [46; 46; 46]
          else take (Z.to_nat (MaxColumnWidth o)) (runes (substitute v o))
   else applyCellOpts v o = substitute v o).
Proof.
  split; [| split].
  - rewrite (applyCellOpts_substitute (applyCellOpts v o)). cbv zeta.
    rewrite applyCellOpts_substitute_id, (applyCellOpts_ceiling v o).
    unfold Spec.ceiling. rewrite !Z.gtb_ltb.
    destruct (Z.ltb_spec 0 (MaxColumnWidth o)) as [H0 | H0]; cbn [andb]; [| reflexivity].
    rewrite (proj2 (Z.ltb_ge _ _)) by lia. reflexivity.
  - intros H0. rewrite applyCellOpts_ceiling. unfold Spec.ceiling.
    rewrite Z.gtb_ltb, (proj2 (Z.ltb_lt _ _) H0). lia.
  - rewrite applyCellOpts_substitute. cbv zeta.
    destruct ((MaxColumnWidth o >? 0) && (RuneCountInString (substitute v o) >? MaxColumnWidth o));
      [| reflexivity].
    destruct (MaxColumnWidth o >? 3).
    + rewrite runes_stringOfRunes by (apply Forall_take, runes_valid). reflexivity.
    + rewrite <- (app_nil_r_s (stringOfRunes _)), runes_stringOfRunes
        by (apply Forall_take, runes_valid).
      apply app_nil_r.
Qed.

(* ===================================================================== *)
(** * Column widths, once more *)
(* ===================================================================== *)

Lemma numCols_zero (o : Options) (rows : list (list string)) :
  Spec.numCols o rows = 0%nat ↔ Headers o = [] ∧ ∀ r, r ∈ rows → r = [].
Proof.
  split.
  - intros H. split.
    + pose proof (numCols_headers o rows). destruct (Headers o); [reflexivity | cbn in *; lia].
    + intros r Hr. pose proof (numCols_row o rows r Hr).
      destruct r; [reflexivity | cbn in *; lia].
  - intros [Hh Hr]. unfold Spec.numCols. rewrite Hh. cbn [length].
    induction rows as [|r rows IH]; [reflexivity |]. cbn [fold_left].
    rewrite (Hr r) by (left). cbn [length Nat.max]. apply IH.
    intros r' Hr'. apply Hr. right. exact Hr'.
Qed.

Lemma colWidths_nil (o : Options) (rows : list (list string)) :
  colWidths o rows = [] ↔ Headers o = [] ∧ ∀ r, r ∈ rows → r = [].
Proof.
  rewrite <- numCols_zero, <- colWidths_length. split.
  - intros ->. reflexivity.
  - intros H. destruct (colWidths o rows); [reflexivity | discriminate].
Qed.

Lemma colWidths_le_max (o : Options) (rows : list (list string)) :
  0 < MaxColumnWidth o → Forall (fun w => w <= MaxColumnWidth o) (colWidths o rows).
Proof.
  intros HM. rewrite colWidths_spec. unfold Spec.colWidths. apply Forall_forall. intros w Hw.
  change (w ∈ Spec.colWidth o rows <$> seq 0 (Spec.numCols o rows)) in Hw.
  apply list_elem_of_fmap in Hw as [i [-> _]].
  unfold Spec.colWidth, Spec.ceiling. rewrite Z.gtb_ltb, (proj2 (Z.ltb_lt _ _) HM). lia.
Qed.

(** X5. What [colWidths] guarantees: one width per column, the number of
    columns being the larger of the header count and the longest row (so
    there is no column exactly when there are no headers and every row is
    empty); no width is negative, and none exceeds a positive
    maxColumnWidth; every header and every row fits the column count and
    every cell that a row holds fits, normalized, the width of its
    column. *)
Theorem colWidths_invariants (o : Options) (rows : list (list string)) :
  length (colWidths o rows)
    = fold_left (fun n r => Nat.max n (length r)) rows (length (Headers o)) ∧
  (colWidths o rows = [] ↔ Headers o = [] ∧ ∀ r, r ∈ rows → r = []) ∧
  Forall (fun w => 0 <= w ∧ (0 < MaxColumnWidth o → w <= MaxColumnWidth o)) (colWidths o rows) ∧
  (length (Headers o) <= length (colWidths o rows))%nat ∧
  (∀ r, r ∈ rows → (length r <= length (colWidths o rows))%nat) ∧
  (∀ r i c, r ∈ rows → r !! i = Some c →
     RuneCountInString (applyCellOpts c o) <= at_ (colWidths o rows) i 0).
Proof.
  split; [apply colWidths_length |].
  split; [apply colWidths_nil |].
  split.
  { pose proof (colWidths_nonneg o rows) as Hn. rewrite Forall_forall in Hn.
    apply Forall_forall. intros w Hw. split; [apply Hn, Hw |].
    intros HM. pose proof (colWidths_le_max o rows HM) as Hm. rewrite Forall_forall in Hm.
    apply Hm, Hw. }
  rewrite colWidths_length.
  split; [apply numCols_headers |].
  split; [intros r Hr; apply numCols_row, Hr |].
  intros r i c Hr Hc. eapply cell_fits; eassumption.
Qed.

(* ===================================================================== *)
(** * Code points of concatenated strings *)
(* ===================================================================== *)

(** What follows does not change how the bytes before it decode, as long
    as it starts a code point. *)
Lemma decoderune_app_start (a : ascii) (s t : string) :
  startsRune t → decoderune (String a s +:+ t) = decoderune (String a s).
Proof.
  intros Ht. unfold decoderune. rewrite app_cons_s.
  destruct t as [|c t]; [rewrite app_nil_r_s; reflexivity |].
  cbn [startsRune] in Ht.
  destruct s as [|a1 [|a2 [|a3 s]]]; rewrite ?app_cons_s, ?app_nil_l_s; cbv zeta;
    rewrite ?Ht, ?andb_false_r; cbn [andb];
    repeat (match goal with
            | |- context [if ?c then _ else _] => destruct c
            | |- context [match ?x with EmptyString => _ | String _ _ => _ end] => destruct x
            end; cbn [andb]);
    reflexivity.
Qed.

Lemma runesFrom_app_start (t : string) (s : string) (k : nat) :
  startsRune t → (k <= strlen s)%nat →
  runesFrom k (s +:+ t) = runesFrom k s ++ runes t.
Proof.
  intros Ht. revert k. induction s as [|a s IH]; intros k Hk.
  - unfold strlen in Hk. cbn in Hk. replace k with 0%nat by lia. reflexivity.
  - destruct k as [|k].
    + change (runesFrom 0 (String a s +:+ t)) with (runes (String a s +:+ t)).
      change (runesFrom 0 (String a s)) with (runes (String a s)).
      rewrite app_cons_s, !runes_cons, <- app_cons_s, decoderune_app_start by exact Ht.
      destruct (decoderune (String a s)) as [r n] eqn:E. cbn [fst snd].
      destruct (decoderune_valid _ _ _ _ E) as (_ & Hn1 & Hn2).
      rewrite <- !runesFrom_drop. rewrite IH by lia. reflexivity.
    + rewrite app_cons_s. cbn [runesFrom]. apply IH.
      unfold strlen in *. cbn [String.length] in Hk. lia.
Qed.

Lemma RuneCount_app_start (s t : string) :
  startsRune t →
  RuneCountInString (s +:+ t) = RuneCountInString s + RuneCountInString t.
Proof.
  intros Ht. unfold RuneCountInString, runes.
  rewrite runesFrom_app_start by (exact Ht || lia).
  rewrite length_app. fold (runes t). lia.
Qed.

Lemma startsRune_app (s t : string) : startsRune s → startsRune t → startsRune (s +:+ t).
Proof. destruct s as [|a s]; [intros _ Ht; exact Ht | intros Hs _; exact Hs]. Qed.

Lemma startsRune_concatS (l : list string) : Forall startsRune l → startsRune (concatS l).
Proof.
  induction 1 as [|s l Hs _ IH]; [exact I |]. cbn [concatS]. apply startsRune_app; assumption.
Qed.

Lemma RuneCount_concatS (l : list string) :
  Forall startsRune l → RuneCountInString (concatS l) = sumZ (map RuneCountInString l).
Proof.
  induction 1 as [|s l Hs Hl IH]; [reflexivity |].
  cbn [concatS map sumZ fold_right].
  rewrite RuneCount_app_start by (apply startsRune_concatS, Hl).
  rewrite IH. reflexivity.
Qed.

Lemma startsRune_repeatN (f : string) (n : nat) : startsRune f → startsRune (strings.repeatN f n).
Proof.
  intros Hf. induction n as [|n IH]; [exact I |].
  cbn [strings.repeatN]. apply startsRune_app; assumption.
Qed.

Lemma RuneCount_repeatN (f : string) (n : nat) :
  startsRune f →
  RuneCountInString (strings.repeatN f n) = Z.of_nat n * RuneCountInString f.
Proof.
  intros Hf. induction n as [|n IH]; [reflexivity |].
  cbn [strings.repeatN].
  rewrite RuneCount_app_start by (apply startsRune_repeatN, Hf). rewrite IH. lia.
Qed.

Lemma RuneCount_Repeat (f : string) (count : Z) :
  startsRune f → RuneCountInString f = 1 → 0 <= count →
  RuneCountInString (strings.Repeat f count) = count.
Proof.
  intros Hf H1 Hc. unfold strings.Repeat. rewrite RuneCount_repeatN by exact Hf. lia.
Qed.

Lemma startsRune_Repeat (f : string) (count : Z) :
  startsRune f → startsRune (strings.Repeat f count).
Proof. apply startsRune_repeatN. Qed.

(* ===================================================================== *)
(** * Sums over the columns *)
(* ===================================================================== *)

Lemma sumZ_app (l1 l2 : list Z) : sumZ (l1 ++ l2) = sumZ l1 + sumZ l2.
Proof.
  induction l1 as [|x l1 IH]; [reflexivity |].
  cbn [app sumZ fold_right] in *. fold (sumZ (l1 ++ l2)). fold (sumZ l1). rewrite IH. lia.
Qed.

Lemma sumZ_map_add {A : Type} (f g : A → Z) (l : list A) :
  sumZ (map (fun x => f x + g x) l) = sumZ (map f l) + sumZ (map g l).
Proof.
  induction l as [|x l IH]; [reflexivity |].
  cbn [map sumZ fold_right] in *.
  fold (sumZ (map (fun x => f x + g x) l)). fold (sumZ (map f l)). fold (sumZ (map g l)).
  rewrite IH. lia.
Qed.

Lemma sumZ_map_ext {A : Type} (f g : A → Z) (l : list A) :
  (∀ x, x ∈ l → f x = g x) → sumZ (map f l) = sumZ (map g l).
Proof.
  intros H. f_equal. apply map_ext_in. intros x Hx. apply H, list_elem_of_In, Hx.
Qed.

Lemma tab_self (ws : list Z) : map (fun i => at_ ws i 0) (seq 0 (length ws)) = ws.
Proof.
  apply list_eq. intros j.
  change (map (fun i => at_ ws i 0) (seq 0 (length ws))) with (tab (fun i => at_ ws i 0) (length ws)).
  rewrite tab_lookup. unfold at_. rewrite nth_lookup.
  destruct (Nat.ltb_spec j (length ws)) as [Hj | Hj].
  - destruct (lookup_lt_is_Some_2 ws j Hj) as [w Hw]. rewrite Hw. reflexivity.
  - symmetry. apply lookup_ge_None. exact Hj.
Qed.

Lemma sumZ_columns (k : Z) (ws : list Z) :
  sumZ (map (fun i => at_ ws i 0 + k) (seq 0 (length ws))) = sumZ (map (fun w => w + k) ws).
Proof.
  transitivity (sumZ (map (fun w => w + k) (map (fun i => at_ ws i 0) (seq 0 (length ws))))).
  - rewrite map_map. reflexivity.
  - rewrite tab_self. reflexivity.
Qed.

Lemma sumZ_below (m n : nat) :
  sumZ (map (fun i => if (i <? m)%nat then 1 else 0) (seq 0 n)) = Z.of_nat (Nat.min n m).
Proof.
  induction n as [|n IH]; [reflexivity |].
  rewrite seq_S, map_app, sumZ_app, IH. cbn [Nat.add map sumZ fold_right].
  destruct (Nat.ltb_spec n m); lia.
Qed.

(* ===================================================================== *)
(** * Borders *)
(* ===================================================================== *)

Lemma sumZ_map_shift (k : Z) (ws : list Z) :
  sumZ (map (fun w => w + k) ws) = sumZ ws + k * len ws.
Proof.
  unfold len. induction ws as [|w ws IH]; [cbn; lia |].
  cbn [map sumZ fold_right length] in *.
  fold (sumZ (map (fun w => w + k) ws)). fold (sumZ ws). rewrite IH. lia.
Qed.

(** The border as one expression: the left corner, for every column the
    fill repeated two more times than the width, the junction between
    neighbouring columns, the right corner. *)
Lemma buildHorizontalBorder_text (widths : list Z) (left mid right fill : string) :
  buildHorizontalBorder widths left mid right fill
  = left +:+
    concatS (map (fun i => strings.Repeat fill (at_ widths i 0 + 2) +:+
                           (if (i <? length widths - 1)%nat then mid else EmptyString))
                 (seq 0 (length widths))) +:+
    right.
Proof.
  unfold buildHorizontalBorder. cbv zeta. unfold forRange.
  rewrite (forRangeFrom_ext _ (fun i w b =>
             WriteString b (strings.Repeat fill (w + 2) +:+
                            (if (i <? length widths - 1)%nat then mid else EmptyString)))).
  2:{ intros i w b. unfold WriteString, len.
      destruct (Z.ltb_spec (Z.of_nat i) (Z.of_nat (length widths) - 1)),
               (Nat.ltb_spec i (length widths - 1)); try lia.
      - apply app_assoc_s.
      - rewrite app_nil_r_s. reflexivity. }
  rewrite (forRangeFrom_write_at _
             (fun i => strings.Repeat fill (at_ widths i 0 + 2) +:+
                       (if (i <? length widths - 1)%nat then mid else EmptyString))).
  2:{ intros j w Hw. cbn [Nat.add]. unfold at_. rewrite nth_lookup, Hw. reflexivity. }
  unfold WriteString. rewrite app_nil_l_s, app_assoc_s. reflexivity.
Qed.

Lemma at_nonneg (ws : list Z) (i : nat) : Forall (fun w => 0 <= w) ws → 0 <= at_ ws i 0.
Proof.
  intros H. unfold at_. rewrite nth_lookup. destruct (ws !! i) as [w |] eqn:E; cbn; [| lia].
  rewrite Forall_forall in H. apply H. eapply list_elem_of_lookup_2. exact E.
Qed.

(** The code points of a border, counted piece by piece. *)
Lemma buildHorizontalBorder_width_aux (widths : list Z) (left mid right fill : string) :
  widths ≠ [] → Forall (fun w => 0 <= w) widths →
  startsRune mid → startsRune right → startsRune fill →
  RuneCountInString left = 1 → RuneCountInString mid = 1 →
  RuneCountInString right = 1 → RuneCountInString fill = 1 →
  RuneCountInString (buildHorizontalBorder widths left mid right fill) = tableWidth widths.
Proof.
  intros Hne Hnn Hm Hr Hf Hl1 Hm1 Hr1 Hf1. rewrite buildHorizontalBorder_text.
  set (piece := fun i : nat => strings.Repeat fill (at_ widths i 0 + 2) +:+
                               (if (i <? length widths - 1)%nat then mid else EmptyString)).
  assert (Hstart : Forall startsRune (map piece (seq 0 (length widths)))).
  { apply Forall_forall. intros p Hp. change (p ∈ piece <$> seq 0 (length widths)) in Hp.
    apply list_elem_of_fmap in Hp as [i [-> _]]. unfold piece.
    apply startsRune_app; [apply startsRune_Repeat, Hf |].
    destruct (i <? length widths - 1)%nat; [exact Hm | exact I]. }
  rewrite RuneCount_app_start
    by (apply startsRune_app; [apply startsRune_concatS, Hstart | exact Hr]).
  rewrite RuneCount_app_start by exact Hr.
  rewrite RuneCount_concatS by exact Hstart. rewrite map_map.
  rewrite (sumZ_map_ext _ (fun i => (at_ widths i 0 + 2)
                                    + (if (i <? length widths - 1)%nat then 1 else 0))).
  2:{ intros i _. unfold piece.
      rewrite RuneCount_app_start
        by (destruct (i <? length widths - 1)%nat; [exact Hm | exact I]).
      rewrite RuneCount_Repeat by (try assumption; pose proof (at_nonneg widths i Hnn); lia).
      destruct (i <? length widths - 1)%nat; [rewrite Hm1 |]; reflexivity. }
  rewrite sumZ_map_add, sumZ_columns, sumZ_below, Hl1, Hr1.
  unfold tableWidth. rewrite !sumZ_map_shift. unfold len.
  destruct widths; [congruence |]. cbn [length]. lia.
Qed.

(** X6. A border drawn with one-code-point corner, junction and fill
    strings over at least one column of non-negative widths is exactly as
    wide as a table line: one code point for the left corner and, for
    every column, its width plus three.  Its text is the left corner,
    then for every column the fill repeated width plus two times, with a
    junction between neighbours, then the right corner. *)
Theorem buildHorizontalBorder_width (widths : list Z) (left mid right fill : string) :
  widths ≠ [] → Forall (fun w => 0 <= w) widths →
  startsRune mid → startsRune right → startsRune fill →
  RuneCountInString left = 1 → RuneCountInString mid = 1 →
  RuneCountInString right = 1 → RuneCountInString fill = 1 →
  RuneCountInString (buildHorizontalBorder widths left mid right fill) = tableWidth widths ∧
  buildHorizontalBorder widths left mid right fill
  = left +:+
    concatS (map (fun i => strings.Repeat fill (at_ widths i 0 + 2) +:+
                           (if (i <? length widths - 1)%nat then mid else EmptyString))
                 (seq 0 (length widths))) +:+
    right.
Proof.
  intros Hne Hnn Hm Hr Hf Hl1 Hm1 Hr1 Hf1. split.
  - apply buildHorizontalBorder_width_aux; assumption.
  - apply buildHorizontalBorder_text.
Qed.

Lemma buildHorizontalBorder_width_witness :
  [2; 0] ≠ [] ∧ RuneCountInString (buildHorizontalBorder [2; 0] "┌" "┬" "┐" "─") = tableWidth [2; 0].
Proof.
  split; [discriminate |].
  apply (buildHorizontalBorder_width [2; 0] "┌" "┬" "┐" "─");
    try reflexivity; try discriminate.
  repeat constructor; lia.
Defined.

(* ===================================================================== *)
(** * Every cell as wide as its column *)
(* ===================================================================== *)

Lemma header_fits (o : Options) (rows : list (list string)) (i : nat) (h : string) :
  Headers o !! i = Some h → h ≠ EmptyString ∨ NullPlaceholder o = EmptyString →
  RuneCountInString (applyCellOpts h o) <= at_ (colWidths o rows) i 0.
Proof.
  intros Hi Hh.
  assert (Hlt : (i < Spec.numCols o rows)%nat).
  { pose proof (numCols_headers o rows). apply lookup_lt_Some in Hi. lia. }
  rewrite colWidths_at by exact Hlt. unfold Spec.colWidth.
  rewrite applyCellOpts_ceiling, (substitute_id h o Hh).
  apply ceiling_mono. unfold Spec.rawWidth.
  pose proof (measure_ge_cell RuneCountInString i (Headers o) h 0 Hi).
  pose proof (fold_measure_ge_acc (fun c => RuneCountInString (applyCellOpts c o)) i rows
                (Spec.measure RuneCountInString (Headers o) i 0)).
  lia.
Qed.

Lemma empty_cell_fits (o : Options) (rows : list (list string)) (i : nat) :
  NullPlaceholder o = EmptyString →
  RuneCountInString (applyCellOpts EmptyString o) <= at_ (colWidths o rows) i 0.
Proof.
  intros Hp. rewrite applyCellOpts_ceiling, substitute_id by (right; exact Hp).
  change (RuneCountInString EmptyString) with 0.
  pose proof (at_nonneg (colWidths o rows) i (colWidths_nonneg o rows)).
  unfold Spec.ceiling. destruct (MaxColumnWidth o >? 0); lia.
Qed.

Lemma cellAt_cases (cells : list string) (i : nat) :
  (∃ c, cells !! i = Some c ∧ cellAt cells i = c) ∨
  ((length cells <= i)%nat ∧ cellAt cells i = EmptyString).
Proof.
  destruct (cells !! i) as [c |] eqn:E.
  - left. exists c. split; [reflexivity | apply cellAt_lookup, E].
  - right. apply lookup_ge_None in E. split; [exact E | apply cellAt_missing, E].
Qed.

(** In a well-filled table every header cell and every data cell,
    present or missing, is rendered exactly as wide as its column. *)
Lemma renderedCell_width (o : Options) (rows : list (list string)) (cells : list string)
    (i : nat) :
  wellFilled o rows → cells = Headers o ∨ cells ∈ rows →
  (i < length (colWidths o rows))%nat →
  RuneCountInString (renderedCell o (colWidths o rows) cells i) = at_ (colWidths o rows) i 0.
Proof.
  intros Hw Hc Hi. unfold renderedCell. apply alignCell_width.
  rewrite colWidths_length in Hi.
  destruct (cellAt_cases cells i) as [(c & Hl & ->) | (Hlen & ->)].
  - destruct Hc as [-> | Hr]; [| eapply cell_fits; eassumption].
    apply header_fits; [exact Hl |].
    destruct Hw as [Hp | (Hne & _)]; [right; exact Hp | left].
    apply Hne. eapply list_elem_of_lookup_2. exact Hl.
  - destruct Hw as [Hp | (_ & Hh & Hr)]; [apply empty_cell_fits, Hp |].
    exfalso. destruct Hc as [-> | Hc]; [lia |]. specialize (Hr cells Hc). lia.
Qed.

Lemma RuneCount_ascii_cons (a : ascii) (s : string) :
  byteZ a < runeSelf → RuneCountInString (String a s) = 1 + RuneCountInString s.
Proof.
  intros Ha. unfold RuneCountInString. rewrite runes_ascii_cons by exact Ha.
  cbn [length]. lia.
Qed.

(** A line made of a one-code-point lead and one piece per column, each
    three code points wider than the column, has the table width. *)
Lemma row_width (lead : string) (piece : nat → string) (ws : list Z) :
  RuneCountInString lead = 1 →
  (∀ i, (i < length ws)%nat →
        startsRune (piece i) ∧ RuneCountInString (piece i) = at_ ws i 0 + 3) →
  RuneCountInString (lead +:+ concatS (map piece (seq 0 (length ws)))) = tableWidth ws.
Proof.
  intros Hl Hp.
  assert (Hstart : Forall startsRune (map piece (seq 0 (length ws)))).
  { apply Forall_forall. intros p Hin. change (p ∈ piece <$> seq 0 (length ws)) in Hin.
    apply list_elem_of_fmap in Hin as [i [-> Hi]].
    apply elem_of_seq in Hi. apply Hp. lia. }
  rewrite RuneCount_app_start by (apply startsRune_concatS, Hstart).
  rewrite RuneCount_concatS by exact Hstart. rewrite map_map, Hl.
  rewrite (sumZ_map_ext _ (fun i => at_ ws i 0 + 3)).
  - rewrite sumZ_columns. reflexivity.
  - intros i Hi. apply elem_of_seq in Hi. apply Hp. lia.
Qed.

(** A cell of the given width between a space and a two-code-point
    closing that starts with a space. *)
Lemma boxed_cell_width (cell tail : string) (w : Z) :
  RuneCountInString cell = w → asciiHead tail → RuneCountInString tail = 2 →
  startsRune (" " +:+ cell +:+ tail) ∧ RuneCountInString (" " +:+ cell +:+ tail) = w + 3.
Proof.
  intros Hc Ht H2. split; [reflexivity |].
  rewrite app_cons_s, app_nil_l_s, RuneCount_ascii_cons by reflexivity.
  rewrite RuneCount_app by exact Ht. lia.
Qed.

Lemma plainRow_width (o : Options) (rows : list (list string)) (cells : list string) :
  wellFilled o rows → cells = Headers o ∨ cells ∈ rows →
  RuneCountInString (plainRow o (colWidths o rows) cells) = tableWidth (colWidths o rows).
Proof.
  intros Hw Hc. unfold plainRow. apply row_width; [reflexivity |].
  intros i Hi. apply boxed_cell_width; [| reflexivity | reflexivity].
  apply renderedCell_width; assumption.
Qed.

Lemma mdRow_width (o : Options) (rows : list (list string)) (cells : list string) :
  wellFilled o rows → cells = Headers o ∨ cells ∈ rows →
  RuneCountInString (mdRow o (colWidths o rows) cells) = tableWidth (colWidths o rows).
Proof.
  intros Hw Hc. unfold mdRow. apply row_width; [reflexivity |].
  intros i Hi. apply boxed_cell_width; [| reflexivity | reflexivity].
  apply renderedCell_width; assumption.
Qed.

Lemma RuneCount_dashes (w : Z) (tail : string) :
  0 <= w → asciiHead tail →
  RuneCountInString (strings.Repeat "-" w +:+ tail) = w + RuneCountInString tail.
Proof.
  intros Hw Ht. rewrite RuneCount_app by exact Ht.
  rewrite RuneCount_Repeat by (reflexivity || exact Hw). reflexivity.
Qed.

Lemma mdSeparatorRow_width (o : Options) (rows : list (list string)) :
  RuneCountInString (mdSeparatorRow o (colWidths o rows)) = tableWidth (colWidths o rows).
Proof.
  unfold mdSeparatorRow. apply row_width; [reflexivity |].
  intros i Hi. pose proof (at_nonneg (colWidths o rows) i (colWidths_nonneg o rows)) as Hn.
  unfold mdSepCell.
  destruct (getAlign o i =? AlignRight); [| destruct (getAlign o i =? AlignCenter)];
    (split; [reflexivity |]);
    rewrite app_cons_s, app_nil_l_s, RuneCount_ascii_cons by reflexivity;
    rewrite RuneCount_dashes by (exact Hn || reflexivity);
    match goal with |- context [RuneCountInString ?s] => change (RuneCountInString s) with 2 end;
    lia.
Qed.

Lemma plainHeaderRow_width (o : Options) (rows : list (list string)) :
  wellFilled o rows →
  RuneCountInString (plainHeaderRow o (colWidths o rows)) = tableWidth (colWidths o rows).
Proof.
  intros Hw. unfold plainHeaderRow. set (ws := colWidths o rows).
  pose proof (numCols_headers o rows) as Hle. rewrite <- colWidths_length in Hle. fold ws in Hle.
  set (p := fun i : nat =>
              if (i <? length (Headers o))%nat
              then " " +:+ renderedCell o ws (Headers o) i +:+ " │"
              else " " +:+ strings.Repeat " " (at_ ws i 0) +:+ " │").
  rewrite <- concatS_app.
  replace (map (fun i => " " +:+ renderedCell o ws (Headers o) i +:+ " │")
               (seq 0 (length (Headers o))) ++
           map (fun i => " " +:+ strings.Repeat " " (at_ ws i 0) +:+ " │")
               (seq (length (Headers o)) (length ws - length (Headers o))))
    with (map p (seq 0 (length ws))).
  - apply row_width; [reflexivity |]. intros i Hi. unfold p.
    destruct (i <? length (Headers o))%nat.
    + apply boxed_cell_width; [| reflexivity | reflexivity].
      apply renderedCell_width; [exact Hw | left; reflexivity | exact Hi].
    + apply boxed_cell_width; [| reflexivity | reflexivity].
      rewrite RuneCount_Repeat_space.
      pose proof (at_nonneg ws i (colWidths_nonneg o rows)). lia.
  - replace (length ws) with (length (Headers o) + (length ws - length (Headers o)))%nat at 1
      by lia.
    rewrite seq_app, map_app. cbn [Nat.add]. f_equal; apply map_ext_in; intros i Hi;
      apply in_seq in Hi; unfold p.
    + rewrite (proj2 (Nat.ltb_lt _ _)) by lia. reflexivity.
    + rewrite (proj2 (Nat.ltb_ge _ _)) by lia. reflexivity.
Qed.

(* ===================================================================== *)
(** * The fixed-width formats as lists of lines *)
(* ===================================================================== *)

Lemma unlines_app (l1 l2 : list string) : unlines (l1 ++ l2) = unlines l1 +:+ unlines l2.
Proof. unfold unlines. rewrite map_app. apply concatS_app. Qed.

Lemma unlines_cons (l : string) (ls : list string) : unlines (l :: ls) = l +:+ LF +:+ unlines ls.
Proof. unfold unlines. cbn [map concatS]. apply app_assoc_s. Qed.

Lemma unlines_map {A : Type} (f : A → string) (xs : list A) :
  unlines (map f xs) = concatS (map (fun x => f x +:+ LF) xs).
Proof. unfold unlines. rewrite map_map. reflexivity. Qed.

(** Lines that carry their line feed in front, as Plain writes them,
    are lines that carry it behind, shifted by one. *)
Lemma lines_shift {A : Type} (f : A → string) (xs : list A) (a rest : string) :
  a +:+ concatS (map (fun x => LF +:+ f x) xs) +:+ LF +:+ rest
  = a +:+ LF +:+ concatS (map (fun x => f x +:+ LF) xs) +:+ rest.
Proof.
  revert a. induction xs as [|x xs IH]; intros a; cbn [map concatS].
  - reflexivity.
  - rewrite !app_assoc_s. f_equal. f_equal. apply IH.
Qed.

(** X7. Plain: when the table has a column, the output is a list of
    lines, each ended by a line feed: the top border, the header line and
    a border when there are headers, one line per row, the bottom border;
    in a well-filled table all these lines have the same width in code
    points, so the box is rectangular. *)
Theorem renderPlain_rectangular (o : Options) (rows : list (list string)) :
  colWidths o rows ≠ [] →
  renderPlain o rows =
    (unlines (buildHorizontalBorder (colWidths o rows) "┌" "┬" "┐" "─" ::
              (match Headers o with
               | [] => []
               | _ => [plainHeaderRow o (colWidths o rows);
                       buildHorizontalBorder (colWidths o rows) "├" "┼" "┤" "─"]
               end) ++
              map (plainRow o (colWidths o rows)) rows ++
              [buildHorizontalBorder (colWidths o rows) "└" "┴" "┘" "─"]), None) ∧
  (wellFilled o rows →
   Forall (fun l => RuneCountInString l = tableWidth (colWidths o rows))
          (buildHorizontalBorder (colWidths o rows) "┌" "┬" "┐" "─" ::
           (match Headers o with
            | [] => []
            | _ => [plainHeaderRow o (colWidths o rows);
                    buildHorizontalBorder (colWidths o rows) "├" "┼" "┤" "─"]
            end) ++
           map (plainRow o (colWidths o rows)) rows ++
           [buildHorizontalBorder (colWidths o rows) "└" "┴" "┘" "─"])).
Proof.
  intros Hne. split.
  - rewrite renderPlain_lines. destruct (colWidths o rows) as [|w0 ws0] eqn:E; [congruence |].
    rewrite <- E. set (ws := colWidths o rows). f_equal.
    rewrite unlines_cons, unlines_app, unlines_app, unlines_map.
    change (fun r => plainLine o ws r) with (fun r => LF +:+ plainRow o ws r).
    change (plainLine o ws) with (fun r => LF +:+ plainRow o ws r).
    destruct (Headers o) as [|h hs] eqn:Eh.
    + cbn [unlines map concatS]. rewrite !app_nil_l_s.
      rewrite (lines_shift (plainRow o ws)). rewrite !app_assoc_s, app_nil_r_s. reflexivity.
    + change (plainHeaderLine o ws) with (LF +:+ plainHeaderRow o ws).
      rewrite !unlines_cons. cbn [unlines map concatS].
      rewrite !app_assoc_s, !app_nil_l_s, app_nil_r_s.
      f_equal. f_equal. f_equal. f_equal.
      rewrite (lines_shift (plainRow o ws)). reflexivity.
  - intros Hw.
    assert (Hb : ∀ l m r, startsRune m → startsRune r →
                   RuneCountInString l = 1 → RuneCountInString m = 1 →
                   RuneCountInString r = 1 →
                   RuneCountInString (buildHorizontalBorder (colWidths o rows) l m r "─")
                   = tableWidth (colWidths o rows)).
    { intros l m r Hm Hr Hl1 Hm1 Hr1.
      apply buildHorizontalBorder_width_aux; try assumption; try reflexivity.
      apply colWidths_nonneg. }
    apply Forall_cons. split; [apply Hb; reflexivity |].
    apply Forall_app. split.
    + destruct (Headers o); [constructor |].
      repeat constructor; [apply plainHeaderRow_width, Hw | apply Hb; reflexivity].
    + apply Forall_app. split; [| repeat constructor; apply Hb; reflexivity].
      apply Forall_forall. intros l Hl.
      change (l ∈ plainRow o (colWidths o rows) <$> rows) in Hl.
      apply list_elem_of_fmap in Hl as [r [-> Hr]].
      apply plainRow_width; [exact Hw | right; exact Hr].
Qed.

Lemma renderPlain_rectangular_witness :
  colWidths (WithHeaders DefaultOptions ["Name"; "Age"]) [["Alice"; "30"]; ["Bob"]] ≠ [] ∧
  Forall (fun l => RuneCountInString l
                   = tableWidth (colWidths (WithHeaders DefaultOptions ["Name"; "Age"])
                                           [["Alice"; "30"]; ["Bob"]]))
         (map (plainRow (WithHeaders DefaultOptions ["Name"; "Age"])
                        (colWidths (WithHeaders DefaultOptions ["Name"; "Age"])
                                   [["Alice"; "30"]; ["Bob"]]))
              [["Alice"; "30"]; ["Bob"]]).
Proof.
  assert (Hne : colWidths (WithHeaders DefaultOptions ["Name"; "Age"])
                          [["Alice"; "30"]; ["Bob"]] ≠ []) by (vm_compute; discriminate).
  split; [exact Hne |].
  pose proof (proj2 (renderPlain_rectangular (WithHeaders DefaultOptions ["Name"; "Age"])
                       [["Alice"; "30"]; ["Bob"]] Hne)
                    (or_introl eq_refl)) as H.
  apply Forall_cons in H as [_ H]. apply Forall_app in H as [_ H].
  apply Forall_app in H as [H _]. exact H.
Defined.

(** X8. Markdown: when the table has a column, the output is the header
    line, the separator line and one line per row, each ended by a line
    feed; the separator is always as wide as the table, and in a
    well-filled table so is every other line. *)
Theorem renderMarkdown_rectangular (o : Options) (rows : list (list string)) :
  colWidths o rows ≠ [] →
  renderMarkdown o rows =
    (unlines (mdRow o (colWidths o rows) (Headers o) ::
              mdSeparatorRow o (colWidths o rows) ::
              map (mdRow o (colWidths o rows)) rows), None) ∧
  length (mdRow o (colWidths o rows) (Headers o) ::
          mdSeparatorRow o (colWidths o rows) ::
          map (mdRow o (colWidths o rows)) rows) = S (S (length rows)) ∧
  RuneCountInString (mdSeparatorRow o (colWidths o rows)) = tableWidth (colWidths o rows) ∧
  (wellFilled o rows →
   Forall (fun l => RuneCountInString l = tableWidth (colWidths o rows))
          (mdRow o (colWidths o rows) (Headers o) ::
           mdSeparatorRow o (colWidths o rows) ::
           map (mdRow o (colWidths o rows)) rows)).
Proof.
  intros Hne. split; [| split; [| split]].
  - rewrite renderMarkdown_lines. destruct (colWidths o rows) as [|w0 ws0] eqn:E; [congruence |].
    rewrite <- E. set (ws := colWidths o rows). f_equal.
    rewrite !unlines_cons, unlines_map.
    rewrite (map_ext (mdLine o ws) (fun r => mdRow o ws r +:+ LF))
      by (intros r; unfold mdLine, mdRow; symmetry; apply app_assoc_s).
    unfold mdLine, mdSeparator, mdRow, mdSeparatorRow.
    rewrite !app_assoc_s. reflexivity.
  - cbn [length]. rewrite length_map. reflexivity.
  - apply mdSeparatorRow_width.
  - intros Hw. apply Forall_cons. split; [apply mdRow_width; [exact Hw | left; reflexivity] |].
    apply Forall_cons. split; [apply mdSeparatorRow_width |].
    apply Forall_forall. intros l Hl.
    change (l ∈ mdRow o (colWidths o rows) <$> rows) in Hl.
    apply list_elem_of_fmap in Hl as [r [-> Hr]].
    apply mdRow_width; [exact Hw | right; exact Hr].
Qed.

Lemma renderMarkdown_rectangular_witness :
  colWidths (WithFormat (WithHeaders DefaultOptions ["Name"; "Score"]) FormatMarkdown)
            [["Alice"; "95"]; ["Bob"]] ≠ [] ∧
  RuneCountInString
    (mdSeparatorRow (WithFormat (WithHeaders DefaultOptions ["Name"; "Score"]) FormatMarkdown)
       (colWidths (WithFormat (WithHeaders DefaultOptions ["Name"; "Score"]) FormatMarkdown)
                  [["Alice"; "95"]; ["Bob"]]))
  = tableWidth (colWidths (WithFormat (WithHeaders DefaultOptions ["Name"; "Score"])
                                      FormatMarkdown)
                          [["Alice"; "95"]; ["Bob"]]).
Proof.
  assert (Hne : colWidths (WithFormat (WithHeaders DefaultOptions ["Name"; "Score"])
                                      FormatMarkdown)
                          [["Alice"; "95"]; ["Bob"]] ≠ []) by (vm_compute; discriminate).
  split; [exact Hne |].
  exact (proj1 (proj2 (proj2 (renderMarkdown_rectangular
           (WithFormat (WithHeaders DefaultOptions ["Name"; "Score"]) FormatMarkdown)
           [["Alice"; "95"]; ["Bob"]] Hne)))).
Defined.

(* ===================================================================== *)
(** * Simple *)
(* ===================================================================== *)

Lemma sumZ_gaps (n : nat) :
  sumZ (map (fun i => if (0 <? i)%nat then 2 else 0) (seq 0 n)) = 2 * Z.of_nat (n - 1).
Proof.
  induction n as [|n IH]; [reflexivity |].
  rewrite seq_S, map_app, sumZ_app, IH. cbn [Nat.add map sumZ fold_right].
  destruct (Nat.ltb_spec 0 n); lia.
Qed.

Lemma RuneCount_concatS_tail (p : string) (ps : list string) :
  Forall startsRune ps →
  RuneCountInString (concatS (p :: ps)) = sumZ (map RuneCountInString (p :: ps)).
Proof.
  intros Hps. cbn [concatS map sumZ fold_right].
  rewrite RuneCount_app_start by (apply startsRune_concatS, Hps).
  rewrite RuneCount_concatS by exact Hps. reflexivity.
Qed.

(** A line of cells as wide as their columns, two spaces between
    neighbours. *)
Lemma gapped_row_width (cell : nat → string) (ws : list Z) :
  ws ≠ [] →
  (∀ i, (i < length ws)%nat → RuneCountInString (cell i) = at_ ws i 0) →
  RuneCountInString (concatS (map (fun i => gap i +:+ cell i) (seq 0 (length ws))))
  = simpleWidth ws.
Proof.
  intros Hne Hc. destruct (length ws) as [|n] eqn:En; [destruct ws; [congruence | discriminate] |].
  cbn [seq map].
  assert (Htail : Forall startsRune (map (fun i => gap i +:+ cell i) (seq 1 n))).
  { apply Forall_forall. intros p Hp.
    change (p ∈ (fun i => gap i +:+ cell i) <$> seq 1 n) in Hp.
    apply list_elem_of_fmap in Hp as [i [-> Hi]]. apply elem_of_seq in Hi.
    unfold gap. rewrite (proj2 (Nat.ltb_lt 0 i)) by lia. reflexivity. }
  rewrite RuneCount_concatS_tail by exact Htail.
  change (sumZ (map RuneCountInString
                 (map (fun i => gap i +:+ cell i) (0%nat :: seq 1 n)))
          = simpleWidth ws).
  rewrite map_map.
  rewrite (sumZ_map_ext _ (fun i => at_ ws i 0 + (if (0 <? i)%nat then 2 else 0))).
  - change (0%nat :: seq 1 n) with (seq 0 (S n)). rewrite sumZ_map_add, sumZ_gaps.
    rewrite <- En.
    pose proof (sumZ_columns 0 ws) as H0.
    rewrite (sumZ_map_ext (fun i => at_ ws i 0 + 0) (fun i => at_ ws i 0)) in H0
      by (intros; lia).
    rewrite H0. unfold simpleWidth. rewrite !sumZ_map_shift. unfold len. lia.
  - intros i Hi. change (0%nat :: seq 1 n) with (seq 0 (S n)) in Hi.
    apply elem_of_seq in Hi. unfold gap. destruct (Nat.ltb_spec 0 i) as [Hpos | Hz].
    + rewrite !app_cons_s, app_nil_l_s, !RuneCount_ascii_cons by reflexivity.
      rewrite Hc by lia. lia.
    + rewrite app_nil_l_s, Hc by lia. lia.
Qed.

Lemma simpleRow_width (o : Options) (rows : list (list string)) (cells : list string) :
  colWidths o rows ≠ [] → wellFilled o rows → cells = Headers o ∨ cells ∈ rows →
  RuneCountInString (simpleRow o (colWidths o rows) cells) = simpleWidth (colWidths o rows).
Proof.
  intros Hne Hw Hc. unfold simpleRow. apply gapped_row_width; [exact Hne |].
  intros i Hi. apply renderedCell_width; assumption.
Qed.

Lemma simpleSeparatorRow_width (o : Options) (rows : list (list string)) :
  colWidths o rows ≠ [] →
  RuneCountInString (simpleSeparatorRow (colWidths o rows)) = simpleWidth (colWidths o rows).
Proof.
  intros Hne. unfold simpleSeparatorRow. apply gapped_row_width; [exact Hne |].
  intros i Hi. apply RuneCount_Repeat; [reflexivity | reflexivity |].
  apply at_nonneg, colWidths_nonneg.
Qed.

(** X9. Simple: when the table has a column, the output is the header
    line and the line of dashes, when there are headers, and one line per
    row, each ended by a line feed; the line of dashes is as wide as the
    columns with two spaces between neighbours, and in a well-filled
    table so is every line. *)
Theorem renderSimple_rectangular (o : Options) (rows : list (list string)) :
  colWidths o rows ≠ [] →
  renderSimple o rows =
    (unlines ((match Headers o with
               | [] => []
               | _ => [simpleRow o (colWidths o rows) (Headers o);
                       simpleSeparatorRow (colWidths o rows)]
               end) ++
              map (simpleRow o (colWidths o rows)) rows), None) ∧
  RuneCountInString (simpleSeparatorRow (colWidths o rows)) = simpleWidth (colWidths o rows) ∧
  (wellFilled o rows →
   Forall (fun l => RuneCountInString l = simpleWidth (colWidths o rows))
          ((match Headers o with
            | [] => []
            | _ => [simpleRow o (colWidths o rows) (Headers o);
                    simpleSeparatorRow (colWidths o rows)]
            end) ++
           map (simpleRow o (colWidths o rows)) rows)).
Proof.
  intros Hne. split; [| split].
  - rewrite renderSimple_lines. destruct (colWidths o rows) as [|w0 ws0] eqn:E; [congruence |].
    rewrite <- E. set (ws := colWidths o rows). f_equal.
    rewrite unlines_app, unlines_map. f_equal.
    destruct (Headers o) as [|h hs] eqn:Eh; [reflexivity |].
    rewrite !unlines_cons. unfold simpleLine, simpleSeparator, simpleSeparatorRow, simpleRow.
    cbn [unlines map concatS]. rewrite !app_assoc_s, app_nil_r_s. reflexivity.
  - apply simpleSeparatorRow_width, Hne.
  - intros Hw. apply Forall_app. split.
    + destruct (Headers o) eqn:Eh; [constructor |]. rewrite <- Eh.
      repeat constructor;
        [apply simpleRow_width; [exact Hne | exact Hw | left; reflexivity]
        | apply simpleSeparatorRow_width, Hne].
    + apply Forall_forall. intros l Hl.
      change (l ∈ simpleRow o (colWidths o rows) <$> rows) in Hl.
      apply list_elem_of_fmap in Hl as [r [-> Hr]].
      apply simpleRow_width; [exact Hne | exact Hw | right; exact Hr].
Qed.

Lemma renderSimple_rectangular_witness :
  colWidths (WithFormat (WithHeaders DefaultOptions ["Col1"; "Col2"]) FormatSimple)
            [["a"; "b"]; ["c"]] ≠ [] ∧
  RuneCountInString
    (simpleSeparatorRow
       (colWidths (WithFormat (WithHeaders DefaultOptions ["Col1"; "Col2"]) FormatSimple)
                  [["a"; "b"]; ["c"]]))
  = simpleWidth (colWidths (WithFormat (WithHeaders DefaultOptions ["Col1"; "Col2"])
                                       FormatSimple)
                           [["a"; "b"]; ["c"]]).
Proof.
  assert (Hne : colWidths (WithFormat (WithHeaders DefaultOptions ["Col1"; "Col2"])
                                      FormatSimple)
                          [["a"; "b"]; ["c"]] ≠ []) by (vm_compute; discriminate).
  split; [exact Hne |].
  exact (proj1 (proj2 (renderSimple_rectangular
           (WithFormat (WithHeaders DefaultOptions ["Col1"; "Col2"]) FormatSimple)
           [["a"; "b"]; ["c"]] Hne))).
Defined.

(* ===================================================================== *)
(** * When the output is empty *)
(* ===================================================================== *)

Lemma app_nonempty_l (a b : string) : a ≠ EmptyString → a +:+ b ≠ EmptyString.
Proof. destruct a; [congruence | discriminate]. Qed.

Lemma app_nonempty_r (a b : string) : b ≠ EmptyString → a +:+ b ≠ EmptyString.
Proof. destruct a; [intros H; exact H | discriminate]. Qed.

Lemma concatS_nonempty (l : list string) (s : string) :
  s ∈ l → s ≠ EmptyString → concatS l ≠ EmptyString.
Proof.
  induction l as [|x l IH]; intros Hin Hs; [inversion Hin |].
  cbn [concatS]. apply elem_of_cons in Hin as [<- | Hin].
  - apply app_nonempty_l, Hs.
  - apply app_nonempty_r, IH; assumption.
Qed.

Lemma LF_nonempty : LF ≠ EmptyString.
Proof. discriminate. Qed.

Lemma renderMarkdown_empty_iff (o : Options) (rows : list (list string)) :
  (renderMarkdown o rows).1 = EmptyString ↔ colWidths o rows = [].
Proof.
  rewrite renderMarkdown_lines. cbn [fst].
  destruct (colWidths o rows) as [|w ws] eqn:E; [tauto |]. rewrite <- E. split; [| congruence].
  intros H. exfalso. revert H. unfold mdLine. discriminate.
Qed.

Lemma renderPlain_empty_iff (o : Options) (rows : list (list string)) :
  (renderPlain o rows).1 = EmptyString ↔ colWidths o rows = [].
Proof.
  rewrite renderPlain_lines. cbn [fst].
  destruct (colWidths o rows) as [|w ws] eqn:E; [tauto |]. rewrite <- E. split; [| congruence].
  intros H. exfalso. revert H. apply app_nonempty_l.
  rewrite buildHorizontalBorder_text. discriminate.
Qed.

Lemma renderSimple_empty_iff (o : Options) (rows : list (list string)) :
  (renderSimple o rows).1 = EmptyString ↔ colWidths o rows = [].
Proof.
  rewrite renderSimple_lines. cbn [fst].
  destruct (colWidths o rows) as [|w ws] eqn:E; [tauto |]. rewrite <- E. split; [| congruence].
  intros H. exfalso. revert H.
  destruct (Headers o) as [|h hs] eqn:Eh.
  - apply app_nonempty_r.
    destruct rows as [|r rows].
    + exfalso. assert (Hn : colWidths o [] = []) by (apply colWidths_nil; split;
        [exact Eh | intros r Hr; inversion Hr]). congruence.
    + cbn [map concatS]. apply app_nonempty_l. unfold simpleLine.
      apply app_nonempty_r, LF_nonempty.
  - apply app_nonempty_l, app_nonempty_l. unfold simpleLine. apply app_nonempty_r, LF_nonempty.
Qed.

Lemma renderCSV_empty_iff (o : Options) (rows : list (list string)) :
  (renderCSV o rows).1 = EmptyString ↔ Headers o = [] ∧ rows = [].
Proof.
  rewrite renderCSV_spec. cbn [fst]. unfold Spec.csvDocument. split.
  - intros H. destruct (Headers o) as [|h hs]; [split; [reflexivity |] |].
    + destruct rows as [|r rows]; [reflexivity |]. exfalso. revert H.
      cbn [map concatS]. rewrite app_nil_l_s. apply app_nonempty_l. unfold Spec.csvLine.
      apply app_nonempty_r, LF_nonempty.
    + exfalso. revert H. apply app_nonempty_l. unfold Spec.csvLine.
      apply app_nonempty_r, LF_nonempty.
  - intros [-> ->]. reflexivity.
Qed.

(** X10. When [render] returns the empty string.  Plain, Markdown and
    Simple return it exactly when the table has no column: no headers and
    no cell in any row (rows without cells do not count).  CSV returns it
    exactly when there are no headers and no rows at all: a row without
    cells still gives an empty line.  JSON returns it exactly in the error
    case of no headers. *)
Theorem render_empty_output (o : Options) (rows : list (list string)) :
  (Format_ o = FormatCSV →
     ((render o rows).1 = EmptyString ↔ Headers o = [] ∧ rows = [])) ∧
  (Format_ o = FormatJSON →
     ((render o rows).1 = EmptyString ↔ Headers o = [])) ∧
  (Format_ o ≠ FormatCSV → Format_ o ≠ FormatJSON →
     ((render o rows).1 = EmptyString ↔ Headers o = [] ∧ ∀ r, r ∈ rows → r = [])).
Proof.
  split; [| split].
  - intros Hf. unfold render. rewrite Hf. cbn [Z.eqb FormatCSV FormatMarkdown Pos.eqb].
    apply renderCSV_empty_iff.
  - intros Hf. unfold render. rewrite Hf.
    cbn [Z.eqb FormatCSV FormatMarkdown FormatJSON Pos.eqb].
    destruct (renderJSON_error o rows) as [[Hn ->] | [Hn _]]; [tauto |].
    rewrite (renderJSON_text _ _ Hn). cbn [fst]. split; [| contradiction].
    intros H. exfalso. revert H. apply app_nonempty_r, LF_nonempty.
  - intros Hc Hj. rewrite <- colWidths_nil.
    destruct (render_cases o rows) as [[_ ->] | [[E _] | [[E _] | [[_ ->] | [_ ->]]]]];
      try contradiction.
    + apply renderMarkdown_empty_iff.
    + apply renderSimple_empty_iff.
    + apply renderPlain_empty_iff.
Qed.

(* ===================================================================== *)
(** * JSON: repeated header names *)
(* ===================================================================== *)

Lemma last_occurrence (k : string) (l : list string) :
  k ∈ l → ∃ i, l !! i = Some k ∧ ∀ j, (i < j)%nat → l !! j ≠ Some k.
Proof.
  induction l as [|h l IH]; intros Hin; [inversion Hin |].
  destruct (decide (k ∈ l)) as [Hl | Hl].
  - destruct (IH Hl) as (i & Hi & Hlast). exists (S i). split; [exact Hi |].
    intros j Hj. destruct j as [|j]; [lia |]. cbn. apply Hlast. lia.
  - apply elem_of_cons in Hin as [-> | Hin]; [| contradiction].
    exists 0%nat. split; [reflexivity |]. intros j Hj. destruct j as [|j]; [lia |].
    cbn. intros Hk. apply Hl. eapply list_elem_of_lookup_2. exact Hk.
Qed.

(** X11. With headers, [renderJSON] writes one object per row, and the
    fields of the object of a row are these: one field for every distinct
    header name, its value being the one stored for the last column that
    carries the name; so when a header name is repeated, the cells of the
    earlier columns of that name are not in the output. *)
Theorem renderJSON_repeated_headers (o : Options) (rows : list (list string)) :
  Headers o ≠ [] →
  renderJSON o rows
  = (json.indentArray (map (fun r => json.mapFields (jsonObject o r)) rows) +:+ LF, None) ∧
  ∀ r k v,
    (k, v) ∈ json.mapFields (jsonObject o r) ↔
    ∃ i, Headers o !! i = Some k ∧ (∀ j, (i < j)%nat → Headers o !! j ≠ Some k) ∧
         v = jsonCell o r i.
Proof.
  intros Hh. split.
  { rewrite (renderJSON_text o rows Hh). unfold jsonObjects.
    rewrite jsonResult_map, map_map. reflexivity. }
  intros r k v. unfold json.mapFields.
  rewrite (merge_sort_Permutation json.keyLe (map_to_list (jsonObject o r))).
  rewrite elem_of_map_to_list. split.
  - intros Hv.
    assert (Hk : k ∈ Headers o).
    { apply (elem_of_list_to_set (C := gset string)). rewrite <- (dom_jsonObject o r).
      apply elem_of_dom. eauto. }
    destruct (last_occurrence k (Headers o) Hk) as (i & Hi & Hlast).
    exists i. split; [exact Hi |]. split; [exact Hlast |].
    destruct (jsonObject_lookup o r i k Hi Hlast) as (E & _). congruence.
  - intros (i & Hi & Hlast & ->). apply (jsonObject_lookup o r i k Hi Hlast).
Qed.

Lemma renderJSON_repeated_headers_witness :
  Headers (WithHeaders DefaultOptions ["a"; "a"]) ≠ [] ∧
  (("a", "2") ∈ json.mapFields (jsonObject (WithHeaders DefaultOptions ["a"; "a"]) ["1"; "2"])).
Proof.
  split; [discriminate |].
  apply (proj2 (renderJSON_repeated_headers (WithHeaders DefaultOptions ["a"; "a"]) []
                  ltac:(discriminate)) ["1"; "2"] "a" "2").
  exists 1%nat. split; [reflexivity |]. split; [| reflexivity].
  intros j Hj. destruct j as [|[|j]]; [lia | lia | discriminate].
Defined.

(* ===================================================================== *)
(** * CSV loses nothing *)
(* ===================================================================== *)

Section ReaderFacts.
Import Reader.

Lemma snoc_app (cur : string) (a : ascii) (c : string) :
  snoc cur a +:+ c = cur +:+ String a c.
Proof. unfold snoc. rewrite app_assoc_s. reflexivity. Qed.

Lemma bare_byte (a : ascii) :
  strings.hasByte a (DQ +:+ "," +:+ LF) = false →
  Ascii.eqb a "034"%char = false ∧ Ascii.eqb a ","%char = false.
Proof.
  change (DQ +:+ "," +:+ LF)
    with (String "034"%char (String ","%char (String "010"%char EmptyString))).
  cbn [strings.hasByte]. intros H.
  apply orb_false_iff in H as [H1 H]. apply orb_false_iff in H as [H2 _]. auto.
Qed.

(** A field without comma, quote or line feed is read back as it is. *)
Lemma fields_bare (c cur t : string) :
  strings.ContainsAny c (DQ +:+ "," +:+ LF) = false →
  fields Bare cur (c +:+ String ","%char t) = (cur +:+ c) :: fields Start EmptyString t ∧
  fields Bare cur c = [cur +:+ c].
Proof.
  revert cur. induction c as [|a c IH]; intros cur Hc.
  - rewrite app_nil_l_s, app_nil_r_s. split; reflexivity.
  - cbn [strings.ContainsAny] in Hc. apply orb_false_iff in Hc as [Ha Hc].
    destruct (bare_byte a Ha) as [_ Hcomma].
    rewrite app_cons_s. cbn [fields]. rewrite Hcomma, <- (snoc_app cur a c). apply IH, Hc.
Qed.

Lemma fields_start_bare (c t : string) :
  strings.ContainsAny c (DQ +:+ "," +:+ LF) = false →
  fields Start EmptyString (c +:+ String ","%char t) = c :: fields Start EmptyString t ∧
  fields Start EmptyString c = [c].
Proof.
  intros Hc. destruct c as [|a c]; [split; reflexivity |].
  cbn [strings.ContainsAny] in Hc. apply orb_false_iff in Hc as [Ha Hc].
  destruct (bare_byte a Ha) as [Hq Hcomma].
  rewrite app_cons_s. cbn [fields]. rewrite Hq, Hcomma.
  destruct (fields_bare c (snoc EmptyString a) t Hc) as [H1 H2]. rewrite H1, H2.
  split; reflexivity.
Qed.

(** A quoted field, its double quotes doubled, is read back as it was. *)
Lemma fields_quoted (c cur t : string) :
  fields Quoted cur
         (strings.ReplaceAllByte c "034"%char (DQ +:+ DQ) +:+ DQ +:+ String ","%char t)
  = (cur +:+ c) :: fields Start EmptyString t ∧
  fields Quoted cur (strings.ReplaceAllByte c "034"%char (DQ +:+ DQ) +:+ DQ) = [cur +:+ c].
Proof.
  revert cur. induction c as [|a c IH]; intros cur.
  - cbn [strings.ReplaceAllByte]. rewrite !app_nil_l_s, app_nil_r_s. split; reflexivity.
  - cbn [strings.ReplaceAllByte]. destruct (Ascii.eqb_spec a "034"%char) as [-> | Hne].
    + change (DQ +:+ DQ) with (String "034"%char (String "034"%char EmptyString)).
      rewrite !app_cons_s, !app_nil_l_s. cbn [fields Ascii.eqb Bool.eqb].
      rewrite <- (snoc_app cur "034"%char c). apply IH.
    + rewrite !app_cons_s. cbn [fields].
      rewrite (proj2 (Ascii.eqb_neq _ _) Hne), <- (snoc_app cur a c). apply IH.
Qed.

(** The code's field, written with the functions of the code. *)
Lemma csvField_code (c : string) :
  Spec.csvField c =
  if strings.ContainsAny c (DQ +:+ "," +:+ LF)
  then DQ +:+ strings.ReplaceAllByte c "034"%char (DQ +:+ DQ) +:+ DQ
  else c.
Proof.
  unfold Spec.csvField. rewrite <- ContainsAny_needsQuoting, <- ReplaceAll_doubleQuotes.
  reflexivity.
Qed.

Lemma fields_start_quoted (s : string) :
  fields Start EmptyString (DQ +:+ s) = fields Quoted EmptyString s.
Proof. reflexivity. Qed.

Lemma record_field (c t : string) :
  record (Spec.csvField c +:+ String ","%char t) = c :: record t ∧
  record (Spec.csvField c) = [c].
Proof.
  rewrite csvField_code. unfold record.
  destruct (strings.ContainsAny c (DQ +:+ "," +:+ LF)) eqn:Hc.
  - rewrite !app_assoc_s, !fields_start_quoted.
    destruct (fields_quoted c EmptyString t) as [H1 H2]. rewrite H1, H2. split; reflexivity.
  - apply fields_start_bare, Hc.
Qed.

Lemma record_csvRow (c : string) (cs : list string) : record (csvRow (c :: cs)) = c :: cs.
Proof.
  rewrite csvRow_spec. revert c. induction cs as [|c' cs IH]; intros c.
  - cbn [map strings.Join]. apply record_field. exact EmptyString.
  - change (strings.Join (map Spec.csvField (c :: c' :: cs)) ",")
      with (Spec.csvField c +:+ "," +:+ strings.Join (map Spec.csvField (c' :: cs)) ",").
    change ("," +:+ strings.Join (map Spec.csvField (c' :: cs)) ",")
      with (String ","%char (strings.Join (map Spec.csvField (c' :: cs)) ",")).
    rewrite (proj1 (record_field c _)), IH. reflexivity.
Qed.

End ReaderFacts.

(** X12. [csvRow] loses nothing: two rows that each have at least one
    cell and give the same CSV line are the same row, whatever bytes
    their cells hold (commas, double quotes and line feeds included).  A
    row without cells and a row of one empty cell both give the empty
    line. *)
Theorem csvRow_injective (cols cols' : list string) :
  cols ≠ [] → cols' ≠ [] → csvRow cols = csvRow cols' → cols = cols'.
Proof.
  intros Hc Hc' E.
  destruct cols as [|c cs]; [congruence |]. destruct cols' as [|c' cs']; [congruence |].
  rewrite <- (record_csvRow c cs), <- (record_csvRow c' cs'), E. reflexivity.
Qed.

Lemma csvRow_injective_witness :
  csvRow ["a,b"; "c"] = csvRow ["a,b"; "c"] ∧ ["a,b"; "c"] = ["a,b"; "c"].
Proof.
  split; [reflexivity |].
  apply (csvRow_injective ["a,b"; "c"] ["a,b"; "c"]); [discriminate | discriminate | reflexivity].
Defined.

(** A comma inside a cell and a comma between cells are told apart, and
    the one collision is the empty line. *)
Example csvRow_comma_inside :
  csvRow ["a,b"; "c"] ≠ csvRow ["a"; "b"; "c"] ∧ csvRow [] = csvRow [EmptyString].
Proof. split; [vm_compute; discriminate | reflexivity]. Qed.
